(** * ipinfoio_bot: command dispatch, address guard and reply formatting

    A shallow embedding of [ipinfoio_bot.py].  Python strings are byte
    strings, dictionaries that hold the JSON answer of ipinfo.io are finite
    maps from field names to strings, and the coroutines are run
    sequentially in a trace-and-exception monad: every call on the chat, on
    the HTTP client and on the tracker is recorded as an event, and a raised
    exception ends the computation with the events emitted so far.

    The lookup may raise (the answer of the service is [exn + record]) and
    the values of its JSON answer are taken to be strings.  A send on the
    chat is taken to return the transport's answer, which is any JSON
    value.  The address parser of the Python library is a parameter
    ([IPAddress]). *)

From Stdlib Require Import String Ascii ZArith List.
From stdpp Require Import gmap strings list fin_maps pretty.

Local Open Scope string_scope.
Local Open Scope Z_scope.

(** ** Python values used by the bot *)

Module Py.

(** The exceptions the program can meet.  [ValueError] stands for the
    class and its subclasses (a JSON decoding error is one of them). *)
Inductive exn :=
| ValueError
| KeyError (key : string)
| IndexError
| AttributeError
| OtherError (name : string).

Definition is_ValueError (e : exn) : bool :=
  match e with ValueError => true | _ => false end.

(** The double quote character, and a string made of it. *)
Definition dquote_char : ascii := "034"%char.
Definition dquote : string := String dquote_char EmptyString.
Definition newline_char : ascii := "010"%char.
Definition nl : string := String newline_char EmptyString.

(** [s.split(sep)] for a one-character separator: never empty, the pieces
    between the separators in order. *)
Fixpoint split (sep : ascii) (s : string) : list string :=
  match s with
  | EmptyString => [EmptyString]
  | String c s' =>
      if Ascii.eqb c sep then EmptyString :: split sep s'
      else match split sep s' with
           | [] => [String c EmptyString]
           | p :: ps => String c p :: ps
           end
  end.

(** [c in s] for a character [c]. *)
Fixpoint contains (c : ascii) (s : string) : bool :=
  match s with
  | EmptyString => false
  | String a s' => Ascii.eqb a c || contains c s'
  end.

(** [l[i]] for a non-negative index: [IndexError] out of range. *)
Definition index {A} (l : list A) (i : nat) : exn + A :=
  match l !! i with
  | Some x => inr x
  | None => inl IndexError
  end.

(** Truth value of a string ([''] is false). *)
Definition str_truthy (s : string) : bool :=
  match s with EmptyString => false | _ => true end.

(** [str.format] applied to the keyword arguments [d], for a template
    whose replacement fields are plain names: text outside braces is copied, [{name}] is replaced by
    [d[name]] ([KeyError] when absent).  A field left open and a lone
    closing brace are [ValueError], as in Python.  [field] is [Some acc]
    while a field name is being read. *)
Fixpoint format_go (d : gmap string string) (s : string)
    (field : option string) : exn + string :=
  match s, field with
  | EmptyString, None => inr EmptyString
  | EmptyString, Some _ => inl ValueError
  | String c s', None =>
      if Ascii.eqb c "{" then format_go d s' (Some EmptyString)
      else if Ascii.eqb c "}" then inl ValueError
      else match format_go d s' None with
           | inr r => inr (String c r)
           | inl e => inl e
           end
  | String c s', Some acc =>
      if Ascii.eqb c "}" then
        match d !! acc with
        | None => inl (KeyError acc)
        | Some v =>
            match format_go d s' None with
            | inr r => inr (v +:+ r)
            | inl e => inl e
            end
        end
      else format_go d s' (Some (acc +:+ String c EmptyString))
  end.

Definition format (template : string) (d : gmap string string) : exn + string :=
  format_go d template None.

End Py.

Import Py.

(** ** JSON values *)

Local Unset Elimination Schemes.

(** A value read by a JSON decoder ([json.load], the answer of the
    transport); numbers are the integers, and the members of an object are
    listed with distinct keys. *)
Inductive json_value :=
| JNull
| JBool (b : bool)
| JNumber (z : Z)
| JString (s : string)
| JArray (items : list json_value)
| JObject (members : list (string * json_value)).

Local Set Elimination Schemes.

(** Truth value of a JSON value, as in [if DEBUG:] and [if uid:]. *)
Definition json_truthy (v : json_value) : bool :=
  match v with
  | JNull => false
  | JBool b => b
  | JNumber z => negb (z =? 0)
  | JString s => str_truthy s
  | JArray items => match items with [] => false | _ => true end
  | JObject members => match members with [] => false | _ => true end
  end.

(** The value of [key] among the members of a dict. *)
Fixpoint members_get (key : string) (members : list (string * json_value))
    : option json_value :=
  match members with
  | [] => None
  | (k, v) :: rest => if String.eqb k key then Some v else members_get key rest
  end.

(** [d.get(key, default)]: the method exists on a dict only, any other
    value raises [AttributeError]. *)
Definition dict_get (d : json_value) (key : string) (default : json_value)
    : exn + json_value :=
  match d with
  | JObject members =>
      inr (match members_get key members with
           | Some v => v
           | None => default
           end)
  | _ => inl AttributeError
  end.

(** ** Events and the trace monad *)

(** Keyword arguments of a transport call, in the order they are written. *)
Definition kwargs := list (string * string).

(** What the transport answers to a send: the decoded JSON of the reply,
    in which [track_message] looks for [result], [chat] and [id]. *)
Abbreviation response := json_value.

Inductive event :=
| SendToChat (method : string) (msg : kwargs)   (* chat._send_to_chat(method, msg...) *)
| Reply (text : string)                         (* chat.reply(text) *)
| SendText (text : string)                      (* chat.send_text(text) *)
| HttpGet (url : string)                        (* client.get(url) *)
| Track (uid : json_value) (name : string).     (* self.track({'from': {'id': uid}}, name) *)

Record M (A : Type) := Run { events : list event; outcome : exn + A }.
Arguments Run {A} _ _.
Arguments events {A} _.
Arguments outcome {A} _.

Definition ret {A} (x : A) : M A := Run [] (inr x).
Definition raise {A} (e : exn) : M A := Run [] (inl e).
Definition emit (ev : event) : M unit := Run [ev] (inr tt).

Definition bind {A B} (m : M A) (k : A -> M B) : M B :=
  match outcome m with
  | inl e => Run (events m) (inl e)
  | inr x => Run (events m ++ events (k x)) (outcome (k x))
  end.

(** A pure computation that may raise. *)
Definition lift {A} (r : exn + A) : M A := Run [] r.

(** [try: body / except ValueError: handler]. *)
Definition try_except_ValueError {A} (body : M A) (handler : M A) : M A :=
  match outcome body with
  | inl e =>
      if is_ValueError e
      then Run (events body ++ events handler) (outcome handler)
      else body
  | inr _ => body
  end.

Declare Scope py_scope.
Delimit Scope py_scope with py.
Notation "x <- c1 ;; c2" := (bind c1 (fun x => c2))
  (at level 100, c1 at next level, right associativity) : py_scope.
Notation "c1 ;;; c2" := (bind c1 (fun _ => c2))
  (at level 100, right associativity) : py_scope.
Local Open Scope py_scope.

(** A run made of a lookup, a send and what the tracking [tr] then does. *)
Definition track_then (lookup send : event) (tr : M unit) : M unit :=
  Run (lookup :: send :: events tr) (outcome tr).

(** Did the computation return (rather than raise)? *)
Definition returned {A} (m : M A) : bool :=
  match outcome m with inr _ => true | inl _ => false end.

Definition is_send (ev : event) : bool :=
  match ev with
  | SendToChat _ _ | Reply _ | SendText _ => true
  | _ => false
  end.

Definition is_track (ev : event) : bool :=
  match ev with Track _ _ => true | _ => false end.

Definition is_lookup (ev : event) : bool :=
  match ev with HttpGet _ => true | _ => false end.

(** ** Regular expressions of the command table *)

(** The fragment of Python's [re] syntax the command table uses: literal
    text, [.+], concatenation, alternation [|] and numbered groups. *)
Inductive regex :=
| Lit (s : string)
| DotPlus
| Cat (r1 r2 : regex)
| Alt (r1 r2 : regex)
| Group (n : nat) (r : regex).

(** A match object: group number to captured text; a group that took no
    part in the match is absent ([match.group(n)] is [None]). *)
Abbreviation rmatch := (gmap nat string).

Fixpoint strip_prefix (p s : string) : option string :=
  match p, s with
  | EmptyString, _ => Some s
  | String a p', String b s' => if Ascii.eqb a b then strip_prefix p' s' else None
  | String _ _, EmptyString => None
  end.

(** The text between the start of [s] and its suffix [rest]. *)
Definition consumed (s rest : string) : string :=
  String.substring 0 (String.length s - String.length rest) s.

(** [.+] is greedy: the longest run of characters other than newline is
    tried first, then shorter ones, never the empty one. *)
Fixpoint dot_plus {T} (s : string) (k : string -> option T) : option T :=
  match s with
  | EmptyString => None
  | String c s' =>
      if Ascii.eqb c newline_char then None
      else match dot_plus s' k with
           | Some r => Some r
           | None => k s'
           end
  end.

(** Backtracking matcher in continuation-passing style: [k] receives the
    rest of the text and the groups captured so far. *)
Fixpoint rx (r : regex) (s : string) (caps : rmatch)
    (k : string -> rmatch -> option rmatch) : option rmatch :=
  match r with
  | Lit p =>
      match strip_prefix p s with
      | Some s' => k s' caps
      | None => None
      end
  | DotPlus => dot_plus s (fun s' => k s' caps)
  | Cat r1 r2 => rx r1 s caps (fun s' caps' => rx r2 s' caps' k)
  | Alt r1 r2 =>
      match rx r1 s caps k with
      | Some m => Some m
      | None => rx r2 s caps k
      end
  | Group n r1 => rx r1 s caps (fun s' caps' => k s' (<[n := consumed s s']> caps'))
  end.

(** Modelled from the spec: the pattern-matching rule of the router, which
    lives in the bot framework and not in this repository.  The command
    token must appear at the start of the message; the match need not
    reach the end of the text.  Group 0 is the matched text. *)
Definition re_match (r : regex) (text : string) : option rmatch :=
  rx r text ∅ (fun s' caps => Some (<[0%nat := consumed text s']> caps)).

(** [match.group(n)]. *)
Definition group (m : rmatch) (n : nat) : option string := m !! n.

(** ** Constants of the module *)

Definition IPINFO : string := "https://ipinfo.io/".

Definition GREETING : string :=
  "Hi! I'm ipinfo.io bot and I can give you IP geolocation "
  +:+ "info about any IP address you send to me." +:+ nl +:+ nl
  +:+ "You can control me by sending these commands:" +:+ nl +:+ nl
  +:+ "/ip {ip} - get infromation about the IP" +:+ nl
  +:+ "/geo {ip} - get location on a map for the IP".

Definition HELP : string :=
  "This bot allows you to get a simple information about "
  +:+ "giving IP address. All data provided by http://ipinfo.io/ service.".

Definition BASE_TEMPLATE : string := Eval vm_compute in
  nl
  +:+ "*{ip}*" +:+ nl
  +:+ nl
  +:+ "*Hostname*: {hostname}" +:+ nl
  +:+ "*Network*: {org}" +:+ nl
  +:+ "*Country*: {country}" +:+ nl
  +:+ "*City*: {city}" +:+ nl
  +:+ "*Latitude/Longitude*: {loc}" +:+ nl.

(** [BASE_TEMPLATE] with its six slots filled. *)
Definition rendered_base (ip hostname org country city loc : string) : string :=
  nl
  +:+ "*" +:+ ip +:+ "*" +:+ nl
  +:+ nl
  +:+ "*Hostname*: " +:+ hostname +:+ nl
  +:+ "*Network*: " +:+ org +:+ nl
  +:+ "*Country*: " +:+ country +:+ nl
  +:+ "*City*: " +:+ city +:+ nl
  +:+ "*Latitude/Longitude*: " +:+ loc +:+ nl.

Definition REQUIRED_KEYS : list string :=
  ["org"; "country"; "loc"; "city"; "hostname"].

(** The two texts built inside [check_ip]. *)
Definition missing_argument_text : string :=
  "Please provide a valid ipv4 or ipv6 "
  +:+ "address for this command. "
  +:+ "Use /help command for examples.".

Definition invalid_address_text (ip : string) : string :=
  dquote +:+ ip +:+ dquote +:+ " is not valid " +:+ "ipv4 or ipv6 address".

Definition location_unknown_text : string :=
  "Sorry, location is unknown for this address".

(** ** The collaborators *)

(** The [ipaddress] module of the Python library: [ip_address] parses an
    IPv4 or IPv6 literal ([None] stands for the [ValueError] it raises),
    [address_str] is [str] of the address object, its canonical form. *)
Class IPAddress := {
  address : Type;
  ip_address : string -> option address;
  address_str : address -> string
}.

(** The bot object and the services behind it: the tracking token given to
    the constructor, the JSON answer of ipinfo.io to a GET on a URL (or
    the exception raised on the way), and the transport's answer to a
    send. *)
Record bot := {
  botan_token : option string;
  http_json : string -> exn + gmap string string;
  send_result : string -> kwargs -> response
}.

Definition send_to_chat (self : bot) (method : string) (msg : kwargs) : M response :=
  emit (SendToChat method msg) ;;; ret (send_result self method msg).

Definition reply (text : string) : M unit := emit (Reply text).
Definition send_text (text : string) : M unit := emit (SendText text).

(** ** The methods of [IPInfoIOBot] *)

Definition option_truthy {A} (truthy : A -> bool) (o : option A) : bool :=
  match o with Some x => truthy x | None => false end.

(** [message.get('result', {}).get('chat', {}).get('id', None)] *)
Definition response_uid (message : response) : exn + json_value :=
  match dict_get message "result" (JObject []) with
  | inl e => inl e
  | inr result =>
      match dict_get result "chat" (JObject []) with
      | inl e => inl e
      | inr chat => dict_get chat "id" JNull
      end
  end.

Definition track_message (self : bot) (message : response) (name : string) : M unit :=
  uid <- lift (response_uid message) ;;
  if option_truthy str_truthy (botan_token self) then
    if json_truthy uid then emit (Track uid name) else ret tt
  else ret tt.

(** The answers on which every [get] of [track_message] is called on a
    dict: a dict whose [result] and, inside it, [chat] are dicts when they
    are present. *)
Definition dicts_on_path (message : response) : bool :=
  match message with
  | JObject ms =>
      match members_get "result" ms with
      | None => true
      | Some (JObject rs) =>
          match members_get "chat" rs with
          | None | Some (JObject _) => true
          | Some _ => false
          end
      | Some _ => false
      end
  | _ => false
  end.

Definition ping (self : bot) (m : rmatch) : M unit :=
  send_text "test pong!".

Definition ipinfo_query (self : bot) (params : string) : M (gmap string string) :=
  let url := IPINFO +:+ params in
  emit (HttpGet url) ;;; lift (http_json self url).

Definition greeting (self : bot) (m : rmatch) : M unit :=
  let message := [("text", HELP); ("parse_mode", "Markdown")] in
  send_to_chat self "sendMessage" message ;;; ret tt.

Definition help (self : bot) (m : rmatch) : M unit :=
  let message := [("text", GREETING); ("parse_mode", "Markdown")] in
  response <- send_to_chat self "sendMessage" message ;;
  track_message self response "Help".

(** The loop over [REQUIRED_KEYS]: a key that is absent is set to ['']. *)
Definition fill_required (data : gmap string string) : gmap string string :=
  foldl (fun d v => match d !! v with
                    | None => <[v := EmptyString]> d
                    | Some _ => d
                    end) data REQUIRED_KEYS.

(** The branch of [ip_geo] on the answer: the method to call and its
    keyword arguments. *)
Definition geo_message (message : gmap string string) : exn + (string * kwargs) :=
  match message !! "loc" with
  | Some loc =>
      match index (split "," loc) 0 with
      | inl e => inl e
      | inr latitude =>
          match index (split "," loc) 1 with
          | inl e => inl e
          | inr longitude =>
              inr ("sendLocation", [("latitude", latitude); ("longitude", longitude)])
          end
      end
  | None => inr ("sendMessage", [("text", location_unknown_text)])
  end.

Section Handlers.
Context `{IPAddress}.

(** The decorator: [wrapper] of [check_ip(method_to_decorate)]. *)
Definition check_ip (method_to_decorate : bot -> rmatch -> address -> M unit)
    (self : bot) (m : rmatch) : M unit :=
  match group m 2 with
  | None | Some EmptyString =>
      let msg := [("text", missing_argument_text); ("parse_mode", "Markdown")] in
      send_to_chat self "sendMessage" msg ;;; ret tt
  | Some ip =>
      try_except_ValueError
        (match ip_address ip with
         | None => raise ValueError
         | Some a => method_to_decorate self m a
         end)
        (reply (invalid_address_text ip))
  end.

(** The decision of the guard alone, read off its branches: what
    [wrapper] does before any reply or call (see [check_ip_validate]). *)
Inductive validation :=
| MissingArgument
| InvalidAddress (raw : string)
| Validated (raw : string) (a : address).

Definition validate (arg : option string) : validation :=
  match arg with
  | None | Some EmptyString => MissingArgument
  | Some raw =>
      match ip_address raw with
      | None => InvalidAddress raw
      | Some a => Validated raw a
      end
  end.

(** The body of [ip_base] as written under the decorator. *)
Definition ip_base_method (self : bot) (m : rmatch) (ip : address) : M unit :=
  data <- ipinfo_query self (address_str ip +:+ "/json") ;;
  let data := fill_required data in
  text <- lift (format BASE_TEMPLATE data) ;;
  let message := [("text", text); ("parse_mode", "Markdown")] in
  response <- send_to_chat self "sendMessage" message ;;
  track_message self response "Ip".

(** The body of [ip_geo] as written under the decorator. *)
Definition ip_geo_method (self : bot) (m : rmatch) (ip : address) : M unit :=
  message <- ipinfo_query self (address_str ip +:+ "/geo") ;;
  call <- lift (geo_message message) ;;
  response <- send_to_chat self call.1 call.2 ;;
  track_message self response "Ip_Geo".

(** The names [ip_base] and [ip_geo] of the class are the decorated
    methods. *)
Definition ip_base := check_ip ip_base_method.
Definition ip_geo := check_ip ip_geo_method.

(** *** The command table and the router *)

Inductive handler := h_greeting | h_help | h_ping | h_ip_base | h_ip_geo.

(** The pattern [(token (.+)|token)]: group 1 is the whole alternation,
    group 2 the argument of its first branch. *)
Definition command_arg (token : string) : regex :=
  Group 1 (Alt (Cat (Lit (token +:+ " ")) (Group 2 DotPlus)) (Lit token)).

(** [self._commands], in the order of the source:
    [/start], [/help], [/ping], [(/ip (.+)|/ip)], [(/geo (.+)|/geo)]. *)
Definition _commands : list (regex * handler) :=
  [ (Lit "/start", h_greeting);
    (Lit "/help", h_help);
    (Lit "/ping", h_ping);
    (command_arg "/ip", h_ip_base);
    (command_arg "/geo", h_ip_geo) ].

Definition call (h : handler) : bot -> rmatch -> M unit :=
  match h with
  | h_greeting => greeting
  | h_help => help
  | h_ping => ping
  | h_ip_base => ip_base
  | h_ip_geo => ip_geo
  end.

(** Modelled from the spec: the router of the bot framework, which is not
    in this repository.  Patterns are tried in registration order and the
    first one that matches decides the handler; no handler fires for a
    text no pattern matches. *)
Fixpoint route (commands : list (regex * handler)) (text : string)
    : option (handler * rmatch) :=
  match commands with
  | [] => None
  | (pattern, h) :: rest =>
      match re_match pattern text with
      | Some m => Some (h, m)
      | None => route rest text
      end
  end.

(** Modelled from the spec: the dispatcher of the bot framework, which is
    not in this repository.  It looks for the first pattern of the table
    that matches the text and calls its handler with the match; nothing
    happens for a text no pattern matches. *)
Definition dispatch (self : bot) (text : string) : M unit :=
  match route _commands text with
  | Some (h, m) => call h self m
  | None => ret tt
  end.

End Handlers.

(** ** A concrete address parser: strict dotted quads *)

Module DottedQuad.

Definition is_digit (c : ascii) : bool :=
  let n := nat_of_ascii c in (48 <=? n)%nat && (n <=? 57)%nat.

Fixpoint digits_value (s : string) (acc : N) : option N :=
  match s with
  | EmptyString => Some acc
  | String c s' =>
      if is_digit c
      then digits_value s' (10 * acc + N.of_nat (nat_of_ascii c - 48))%N
      else None
  end.

Definition parse_octet (s : string) : option N :=
  match s with
  | EmptyString => None
  | String c rest =>
      if (3 <? String.length s)%nat then None
      else if Ascii.eqb c "0" && str_truthy rest then None
      else match digits_value s 0%N with
           | Some v => if (v <=? 255)%N then Some v else None
           | None => None
           end
  end.

(** Modelled from the spec: the strict dotted-quad syntax of an IPv4
    literal, standing for the parser of the Python library (which is not
    in this repository) wherever a run of the bot is evaluated.  Four
    decimal fields separated by dots, each of one to three digits, no
    leading zero on a field of several digits, each at most 255.  IPv6
    literals are outside this instance: it is used at IPv4 arguments
    only, and no theorem about the guard depends on it. *)
Definition parse (s : string) : option (list N) :=
  match split "." s with
  | [a; b; c; d] =>
      match parse_octet a, parse_octet b, parse_octet c, parse_octet d with
      | Some a, Some b, Some c, Some d => Some [a; b; c; d]
      | _, _, _, _ => None
      end
  | _ => None
  end.

Fixpoint join (sep : string) (l : list string) : string :=
  match l with
  | [] => EmptyString
  | [x] => x
  | x :: rest => x +:+ sep +:+ join sep rest
  end.

Definition to_string (a : list N) : string := join "." (pretty <$> a).

#[export] Instance lib : IPAddress :=
  {| address := list N; ip_address := parse; address_str := to_string |}.

End DottedQuad.

(** A bot whose services answer with a fixed record and a fixed chat. *)
Definition sample_bot (token : option string) (answer : exn + gmap string string)
    (uid : option Z) : bot :=
  {| botan_token := token;
     http_json := fun _ => answer;
     send_result := fun _ _ =>
       JObject
         [("ok", JBool true);
          ("result",
           JObject
             [("chat",
               JObject match uid with
                       | Some id => [("id", JNumber id)]
                       | None => []
                       end)])] |}.

Definition matched_arg (arg : option string) : rmatch :=
  match arg with
  | Some a => <[2%nat := a]> ∅
  | None => ∅
  end.


(** ** The module-level configuration *)

(** [if VALUE: CONFIG[key] = VALUE] for [VALUE = os.environ.get(name, None)]. *)
Definition override_from_environ (environ : gmap string string)
    (name key : string) (CONFIG : gmap string json_value)
    : gmap string json_value :=
  match environ !! name with
  | Some value =>
      if str_truthy value then <[key := JString value]> CONFIG else CONFIG
  | None => CONFIG
  end.

(** The statements at the top of the module, from the object read from
    [config.json] and the process environment to the pair of [CONFIG] (as
    it is passed to the constructor of the bot) and [DEBUG]. *)
Definition load_config (file : gmap string json_value)
    (environ : gmap string string) : gmap string json_value * json_value :=
  let CONFIG := file in
  let CONFIG :=
    override_from_environ environ "IPINFOIO_TELEGRAM_API_TOKEN" "api_token" CONFIG in
  let CONFIG := override_from_environ environ "BOTAN_TOKEN" "botan_token" CONFIG in
  let DEBUG := default (JBool false) (CONFIG !! "debug") in
  (delete "debug" CONFIG, DEBUG).

Inductive logging_level := level_DEBUG | level_INFO.

(** The level given to [logging.basicConfig] under [__main__]. *)
Definition main_logging_level (DEBUG : json_value) : logging_level :=
  if json_truthy DEBUG then level_DEBUG else level_INFO.

(** * Properties *)

(** ** Strings *)

Lemma append_nil_l (s : string) : EmptyString +:+ s = s.
Proof. reflexivity. Qed.

Lemma append_cons (c : ascii) (a b : string) :
  String c a +:+ b = String c (a +:+ b).
Proof. reflexivity. Qed.

Lemma append_empty_r (s : string) : s +:+ EmptyString = s.
Proof.
  induction s as [|c s IH]; [reflexivity |].
  now rewrite append_cons, IH.
Qed.

Lemma split_nonempty (sep : ascii) (s : string) : split sep s <> [].
Proof.
  induction s as [|c s IH]; simpl; [discriminate |].
  destruct (Ascii.eqb c sep); [discriminate |].
  destruct (split sep s); discriminate.
Qed.

Lemma split_without_sep (sep : ascii) (s : string) :
  contains sep s = false -> split sep s = [s].
Proof.
  induction s as [|c s IH]; simpl; [reflexivity |].
  intros Hc. apply orb_false_iff in Hc as [Hc Hs].
  rewrite Hc, (IH Hs). reflexivity.
Qed.

Lemma split_at_first_sep (sep : ascii) (a b : string) :
  contains sep a = false ->
  split sep (a +:+ String sep b) = a :: split sep b.
Proof.
  induction a as [|c a IH].
  - intros _. rewrite append_nil_l. simpl. now rewrite Ascii.eqb_refl.
  - intros Hc. simpl in Hc. apply orb_false_iff in Hc as [Hc Ha].
    rewrite append_cons. simpl. rewrite Hc, (IH Ha). reflexivity.
Qed.

Lemma contains_split (sep : ascii) (s : string) :
  contains sep s = true ->
  exists a b, s = a +:+ String sep b /\ contains sep a = false.
Proof.
  induction s as [|c s IH]; simpl; [discriminate |].
  destruct (Ascii.eqb c sep) eqn:Hc; simpl.
  - intros _. apply Ascii.eqb_eq in Hc as ->.
    exists EmptyString, s. split; reflexivity.
  - intros Hs. destruct (IH Hs) as (a & b & -> & Ha).
    exists (String c a), b. simpl. rewrite Hc, Ha. split; reflexivity.
Qed.

(** The second piece of a split exists exactly when the separator occurs. *)
Lemma index_split_1 (sep : ascii) (s : string) :
  contains sep s = false -> index (split sep s) 1 = inl IndexError.
Proof. intros Hs. now rewrite (split_without_sep _ _ Hs). Qed.

(** ** Runs of the collaborator calls *)

Lemma response_uid_on_path (message : response) :
  dicts_on_path message = true -> exists uid, response_uid message = inr uid.
Proof.
  unfold dicts_on_path, response_uid.
  destruct message as [| | | | |ms]; try discriminate. cbn [dict_get].
  destruct (members_get "result" ms) as [[| | | | |rs]|]; try discriminate.
  - cbn [dict_get].
    destruct (members_get "chat" rs) as [[| | | | |cs]|]; try discriminate;
      cbn [dict_get]; eauto.
  - cbn [dict_get members_get]. eauto.
Qed.

Lemma response_uid_off_path (message : response) (e : exn) :
  response_uid message = inl e ->
  e = AttributeError /\ dicts_on_path message = false.
Proof.
  unfold dicts_on_path, response_uid.
  destruct message as [| | | | |ms]; cbn [dict_get];
    try (intros [= <-]; split; reflexivity).
  destruct (members_get "result" ms) as [[| | | | |rs]|]; cbn [dict_get];
    try (intros [= <-]; split; reflexivity).
  all: try (cbn [members_get]; discriminate).
  destruct (members_get "chat" rs) as [[| | | | |cs]|]; cbn [dict_get];
    try (intros [= <-]; split; reflexivity); discriminate.
Qed.

Lemma track_message_outcome (self : bot) (message : response) (name : string) :
  outcome (track_message self message name)
  = match response_uid message with
    | inl e => inl e
    | inr _ => inr tt
    end.
Proof.
  unfold track_message, lift, bind. cbn [outcome events].
  destruct (response_uid message) as [e|uid]; [reflexivity |].
  destruct (option_truthy str_truthy (botan_token self)); [| reflexivity].
  destruct (json_truthy uid); reflexivity.
Qed.

Lemma track_message_returns (self : bot) (message : response) (name : string) :
  dicts_on_path message = true ->
  outcome (track_message self message name) = inr tt.
Proof.
  intros Hp. rewrite track_message_outcome.
  now destruct (response_uid_on_path message Hp) as [uid ->].
Qed.

Lemma ipinfo_query_run (self : bot) (params : string) :
  ipinfo_query self params
  = Run [HttpGet (IPINFO +:+ params)] (http_json self (IPINFO +:+ params)).
Proof. reflexivity. Qed.

Lemma send_then_track (self : bot) (method : string) (msg : kwargs) (name : string) :
  (response <- send_to_chat self method msg ;; track_message self response name)
  = Run (SendToChat method msg
           :: events (track_message self (send_result self method msg) name))
        (outcome (track_message self (send_result self method msg) name)).
Proof. reflexivity. Qed.

Lemma bind_raise {A B} (tr : list event) (e : exn) (k : A -> M B) :
  bind (Run tr (inl e)) k = Run tr (inl e).
Proof. reflexivity. Qed.

Lemma bind_value {A B} (tr : list event) (x : A) (k : A -> M B) :
  bind (Run tr (inr x)) k = Run (tr ++ events (k x)) (outcome (k x)).
Proof. reflexivity. Qed.

Section MethodRuns.
Context `{IPAddress}.
Variables (self : bot) (m : rmatch) (ip : address).

Lemma ip_geo_method_sends (record : gmap string string) (method : string) (msg : kwargs) :
  http_json self (IPINFO +:+ address_str ip +:+ "/geo") = inr record ->
  geo_message record = inr (method, msg) ->
  ip_geo_method self m ip
  = Run (HttpGet (IPINFO +:+ address_str ip +:+ "/geo")
           :: SendToChat method msg
           :: events (track_message self (send_result self method msg) "Ip_Geo"))
        (outcome (track_message self (send_result self method msg) "Ip_Geo")).
Proof.
  intros Hq Hg. unfold ip_geo_method.
  rewrite ipinfo_query_run, Hq, bind_value.
  unfold lift at 1 2. rewrite Hg, !bind_value. cbn [fst snd].
  now rewrite send_then_track.
Qed.

Lemma ip_geo_method_raises (record : gmap string string) (e : exn) :
  http_json self (IPINFO +:+ address_str ip +:+ "/geo") = inr record ->
  geo_message record = inl e ->
  ip_geo_method self m ip
  = Run [HttpGet (IPINFO +:+ address_str ip +:+ "/geo")] (inl e).
Proof.
  intros Hq Hg. unfold ip_geo_method.
  rewrite ipinfo_query_run, Hq, bind_value.
  unfold lift at 1 2. rewrite Hg, bind_raise. reflexivity.
Qed.

Lemma ip_base_method_sends (record : gmap string string) (text : string) :
  http_json self (IPINFO +:+ address_str ip +:+ "/json") = inr record ->
  format BASE_TEMPLATE (fill_required record) = inr text ->
  ip_base_method self m ip
  = Run (HttpGet (IPINFO +:+ address_str ip +:+ "/json")
           :: SendToChat "sendMessage" [("text", text); ("parse_mode", "Markdown")]
           :: events (track_message self
                        (send_result self "sendMessage"
                           [("text", text); ("parse_mode", "Markdown")]) "Ip"))
        (outcome (track_message self
                    (send_result self "sendMessage"
                       [("text", text); ("parse_mode", "Markdown")]) "Ip")).
Proof.
  intros Hq Hf. unfold ip_base_method.
  rewrite ipinfo_query_run, Hq, bind_value.
  unfold lift at 1 2. rewrite Hf, !bind_value.
  now rewrite send_then_track.
Qed.

Lemma ip_base_method_raises (record : gmap string string) (e : exn) :
  http_json self (IPINFO +:+ address_str ip +:+ "/json") = inr record ->
  format BASE_TEMPLATE (fill_required record) = inl e ->
  ip_base_method self m ip
  = Run [HttpGet (IPINFO +:+ address_str ip +:+ "/json")] (inl e).
Proof.
  intros Hq Hf. unfold ip_base_method.
  rewrite ipinfo_query_run, Hq, bind_value.
  unfold lift at 1 2. rewrite Hf, bind_raise. reflexivity.
Qed.

End MethodRuns.

(** ** The guard [check_ip] *)

Section Guard.
Context `{IPAddress}.
Variables (method_to_decorate : bot -> rmatch -> address -> M unit).
Variables (self : bot) (m : rmatch).

Lemma check_ip_missing :
  group m 2 = None \/ group m 2 = Some EmptyString ->
  check_ip method_to_decorate self m
  = Run [SendToChat "sendMessage"
           [("text", missing_argument_text); ("parse_mode", "Markdown")]]
        (inr tt).
Proof. unfold check_ip. intros [-> | ->]; reflexivity. Qed.

Lemma check_ip_invalid (raw : string) :
  group m 2 = Some raw -> raw <> EmptyString -> ip_address raw = None ->
  check_ip method_to_decorate self m
  = Run [Reply (invalid_address_text raw)] (inr tt).
Proof.
  unfold check_ip. intros -> Hne Hp.
  destruct raw as [|c raw]; [congruence |].
  rewrite Hp. reflexivity.
Qed.

Lemma check_ip_valid (raw : string) (a : address) :
  group m 2 = Some raw -> raw <> EmptyString -> ip_address raw = Some a ->
  check_ip method_to_decorate self m
  = try_except_ValueError (method_to_decorate self m a)
      (reply (invalid_address_text raw)).
Proof.
  unfold check_ip. intros -> Hne Hp.
  destruct raw as [|c raw]; [congruence |].
  rewrite Hp. reflexivity.
Qed.

End Guard.

Lemma try_except_other {A} (tr : list event) (e : exn) (handler : M A) :
  is_ValueError e = false ->
  try_except_ValueError (Run tr (inl e)) handler = Run tr (inl e).
Proof. intros He. unfold try_except_ValueError; simpl. now rewrite He. Qed.

Lemma try_except_value {A} (tr : list event) (x : A) (handler : M A) :
  try_except_ValueError (Run tr (inr x)) handler = Run tr (inr x).
Proof. reflexivity. Qed.

(** ** The tracker *)

Lemma track_message_events (self : bot) (message : response) (name : string) :
  events (track_message self message name)
  = match response_uid message with
    | inr uid =>
        if option_truthy str_truthy (botan_token self) && json_truthy uid
        then [Track uid name] else []
    | inl _ => []
    end.
Proof.
  unfold track_message, lift, bind. cbn [outcome events].
  destruct (response_uid message) as [e|uid]; [reflexivity |].
  destruct (option_truthy str_truthy (botan_token self)); [| reflexivity].
  destruct (json_truthy uid); reflexivity.
Qed.

Lemma track_message_no_send (self : bot) (message : response) (name : string) :
  List.filter is_send (events (track_message self message name)) = [].
Proof.
  rewrite track_message_events.
  destruct (response_uid message) as [e|uid]; [reflexivity |].
  destruct (option_truthy str_truthy (botan_token self) && json_truthy uid);
    reflexivity.
Qed.

Lemma track_message_no_lookup (self : bot) (message : response) (name : string) :
  List.filter is_lookup (events (track_message self message name)) = [].
Proof.
  rewrite track_message_events.
  destruct (response_uid message) as [e|uid]; [reflexivity |].
  destruct (option_truthy str_truthy (botan_token self) && json_truthy uid);
    reflexivity.
Qed.

(** ** The branch of [ip_geo] on the answer *)

Lemma geo_message_absent (record : gmap string string) :
  record !! "loc" = None ->
  geo_message record = inr ("sendMessage", [("text", location_unknown_text)]).
Proof. unfold geo_message. now intros ->. Qed.

Lemma geo_message_without_comma (record : gmap string string) (loc : string) :
  record !! "loc" = Some loc -> contains "," loc = false ->
  geo_message record = inl IndexError.
Proof.
  unfold geo_message. intros -> Hc.
  rewrite (split_without_sep _ _ Hc). reflexivity.
Qed.

Lemma geo_message_pieces (record : gmap string string) (lat lon tail : string) :
  record !! "loc" = Some (lat +:+ "," +:+ lon +:+ tail) ->
  contains "," lat = false -> contains "," lon = false ->
  tail = EmptyString \/ (exists t, tail = "," +:+ t) ->
  geo_message record
  = inr ("sendLocation", [("latitude", lat); ("longitude", lon)]).
Proof.
  unfold geo_message. intros -> Hlat Hlon Htail.
  change ("," +:+ lon +:+ tail) with (String "," (lon +:+ tail)).
  rewrite (split_at_first_sep _ _ _ Hlat).
  destruct Htail as [-> | [t ->]].
  - rewrite append_empty_r, (split_without_sep _ _ Hlon). reflexivity.
  - change ("," +:+ t) with (String "," t).
    rewrite (split_at_first_sep _ _ _ Hlon). reflexivity.
Qed.

Lemma geo_message_with_comma (record : gmap string string) (loc : string) :
  record !! "loc" = Some loc -> contains "," loc = true ->
  exists lat lon,
    geo_message record
    = inr ("sendLocation", [("latitude", lat); ("longitude", lon)]).
Proof.
  unfold geo_message. intros -> Hc.
  destruct (contains_split _ _ Hc) as (a & b & -> & Ha).
  rewrite (split_at_first_sep _ _ _ Ha).
  destruct (split "," b) as [|lon rest] eqn:Hb.
  - now apply split_nonempty in Hb.
  - exists a, lon. reflexivity.
Qed.

(** ** Filling the required keys and rendering the template *)

Lemma fill_step_lookup (d : gmap string string) (v k : string) :
  match d !! v with None => <[v := EmptyString]> d | Some _ => d end !! k
  = if decide (k = v) then Some (default EmptyString (d !! v)) else d !! k.
Proof.
  destruct (decide (k = v)) as [-> | Hne].
  - destruct (d !! v) as [x|] eqn:Hv; simpl.
    + exact Hv.
    + apply lookup_insert_eq.
  - destruct (d !! v) as [x|] eqn:Hv; [reflexivity |].
    apply lookup_insert_ne. congruence.
Qed.

Lemma fill_keys_lookup (keys : list string) (d : gmap string string) (k : string) :
  foldl (fun d v => match d !! v with
                    | None => <[v := EmptyString]> d
                    | Some _ => d
                    end) d keys !! k
  = if decide (k ∈ keys) then Some (default EmptyString (d !! k)) else d !! k.
Proof.
  revert d. induction keys as [|v keys IH]; intros d; simpl.
  - destruct (decide (k ∈ [])) as [Hin|]; [| reflexivity].
    now apply not_elem_of_nil in Hin.
  - rewrite IH, fill_step_lookup.
    destruct (decide (k = v)) as [-> | Hne].
    + destruct (decide (v ∈ keys)), (decide (v ∈ v :: keys)) as [|Hn];
        try reflexivity; exfalso; apply Hn; left.
    + destruct (decide (k ∈ keys)) as [Hin | Hin],
        (decide (k ∈ v :: keys)) as [Hin' | Hin']; try reflexivity.
      * exfalso. apply Hin'. now right.
      * exfalso. apply elem_of_cons in Hin' as [? | ?]; contradiction.
Qed.

Lemma fill_required_lookup (d : gmap string string) (k : string) :
  fill_required d !! k
  = if decide (k ∈ REQUIRED_KEYS) then Some (default EmptyString (d !! k))
    else d !! k.
Proof. apply fill_keys_lookup. Qed.

Lemma format_base_template (d : gmap string string)
    (ip hostname org country city loc : string) :
  d !! "ip" = Some ip -> d !! "hostname" = Some hostname ->
  d !! "org" = Some org -> d !! "country" = Some country ->
  d !! "city" = Some city -> d !! "loc" = Some loc ->
  format BASE_TEMPLATE d = inr (rendered_base ip hostname org country city loc).
Proof.
  intros Hip Hhost Horg Hcountry Hcity Hloc.
  cbv [format format_go BASE_TEMPLATE String.append Ascii.eqb Bool.eqb].
  rewrite Hip, Hhost, Horg, Hcountry, Hcity, Hloc.
  reflexivity.
Qed.

Lemma format_base_template_no_ip (d : gmap string string) :
  d !! "ip" = None -> format BASE_TEMPLATE d = inl (KeyError "ip").
Proof.
  intros Hip.
  cbv [format format_go BASE_TEMPLATE String.append Ascii.eqb Bool.eqb].
  rewrite Hip. reflexivity.
Qed.

(** * Specification theorems *)

(** ** The /geo reply *)

(** C1 (as amended): when the answer of the lookup has a [loc] of the form
    [lat,lon] or [lat,lon,...] (the text before the first comma and the
    text between the first comma and the next one or the end), the /geo
    path sends exactly one message, a location with that latitude and
    longitude passed through as text; when [loc] is absent it sends exactly
    one message, the text "Sorry, location is unknown for this address";
    and for every answer whose [loc] is absent or contains a comma exactly
    one of the two is sent, the location one precisely when [loc] is
    present. *)
Theorem formatGeo_location_or_unknown `{IPAddress}
    (self : bot) (m : rmatch) (ip : address) (record : gmap string string) :
  http_json self (IPINFO +:+ address_str ip +:+ "/geo") = inr record ->
  (forall lat lon tail : string,
      record !! "loc" = Some (lat +:+ "," +:+ lon +:+ tail) ->
      contains "," lat = false -> contains "," lon = false ->
      tail = EmptyString \/ (exists t, tail = "," +:+ t) ->
      geo_message record
      = inr ("sendLocation", [("latitude", lat); ("longitude", lon)])
      /\ List.filter is_send (events (ip_geo_method self m ip))
         = [SendToChat "sendLocation" [("latitude", lat); ("longitude", lon)]])
  /\ (record !! "loc" = None ->
      geo_message record
      = inr ("sendMessage", [("text", "Sorry, location is unknown for this address")])
      /\ List.filter is_send (events (ip_geo_method self m ip))
         = [SendToChat "sendMessage"
              [("text", "Sorry, location is unknown for this address")]])
  /\ (record !! "loc" = None
      \/ (exists loc, record !! "loc" = Some loc /\ contains "," loc = true) ->
      exists method msg,
        List.filter is_send (events (ip_geo_method self m ip))
        = [SendToChat method msg]
        /\ (method = "sendLocation" <-> is_Some (record !! "loc"))
        /\ (method = "sendMessage" <-> record !! "loc" = None)).
Proof.
  intros Hq.
  assert (Hsent : forall method msg,
             geo_message record = inr (method, msg) ->
             List.filter is_send (events (ip_geo_method self m ip))
             = [SendToChat method msg]).
  { intros method msg Hg.
    rewrite (ip_geo_method_sends self m ip record method msg Hq Hg).
    cbn [events List.filter is_send]. now rewrite track_message_no_send. }
  split; [| split].
  - intros lat lon tail Hloc Hlat Hlon Htail.
    pose proof (geo_message_pieces record lat lon tail Hloc Hlat Hlon Htail) as Hg.
    split; [exact Hg | exact (Hsent _ _ Hg)].
  - intros Hloc. pose proof (geo_message_absent record Hloc) as Hg.
    split; [exact Hg | exact (Hsent _ _ Hg)].
  - intros [Hloc | (loc & Hloc & Hc)].
    + exists "sendMessage", [("text", location_unknown_text)].
      split; [exact (Hsent _ _ (geo_message_absent record Hloc)) |].
      rewrite Hloc. split; split; try reflexivity; try discriminate.
      intros [x Hx]; discriminate.
    + destruct (geo_message_with_comma record loc Hloc Hc) as (lat & lon & Hg).
      exists "sendLocation", [("latitude", lat); ("longitude", lon)].
      split; [exact (Hsent _ _ Hg) |].
      rewrite Hloc. split; split; try reflexivity; try discriminate.
      intros _. now exists loc.
Qed.

Lemma formatGeo_location_or_unknown_witness :
  List.filter is_send
    (events (@ip_geo_method DottedQuad.lib
               (sample_bot None (inr {["loc" := "37.4,-122.1"]}) None)
               ∅ [8; 8; 8; 8]%N))
  = [SendToChat "sendLocation" [("latitude", "37.4"); ("longitude", "-122.1")]].
Proof.
  refine (proj2 (proj1 (@formatGeo_location_or_unknown DottedQuad.lib
            (sample_bot None (inr {["loc" := "37.4,-122.1"]}) None)
            ∅ [8; 8; 8; 8]%N {["loc" := "37.4,-122.1"]} eq_refl)
          "37.4" "-122.1" EmptyString _ _ _ _)).
  - vm_compute; reflexivity.
  - reflexivity.
  - reflexivity.
  - left; reflexivity.
Defined.

(** C1 as stated fails in two ways.  A record whose [loc] has no comma
    gets neither a location nor the "unknown" text: the second component
    of the split does not exist and [IndexError] is raised before anything
    is sent.  And a [loc] with more than one comma is not split on its
    first comma alone: for [1,2,3] the longitude sent is [2], the piece
    between the first two commas, and not the [2,3] that follows the first
    comma. *)
Lemma formatGeo_split_counterexample :
  (({["loc" := "37.4"]} : gmap string string) !! "loc" = Some "37.4"
   /\ geo_message {["loc" := "37.4"]} = inl IndexError
   /\ @ip_geo_method DottedQuad.lib
        (sample_bot None (inr {["loc" := "37.4"]}) None) ∅ [8; 8; 8; 8]%N
      = Run [HttpGet "https://ipinfo.io/8.8.8.8/geo"] (inl IndexError)
   /\ ~ (forall record : gmap string string,
           is_Some (record !! "loc") ->
           exists lat lon,
             geo_message record
             = inr ("sendLocation", [("latitude", lat); ("longitude", lon)])))
  /\ (({["loc" := "1,2,3"]} : gmap string string) !! "loc"
      = Some ("1" +:+ "," +:+ "2,3")
      /\ contains "," "1" = false
      /\ geo_message {["loc" := "1,2,3"]}
         = inr ("sendLocation", [("latitude", "1"); ("longitude", "2")])
      /\ ~ (forall (record : gmap string string) (lat lon : string),
              record !! "loc" = Some (lat +:+ "," +:+ lon) ->
              contains "," lat = false ->
              geo_message record
              = inr ("sendLocation", [("latitude", lat); ("longitude", lon)]))).
Proof.
  split.
  - split; [vm_compute; reflexivity |].
    split; [vm_compute; reflexivity |].
    split; [vm_compute; reflexivity |].
    intros Hall.
    destruct (Hall {["loc" := "37.4"]}) as (lat & lon & Hg).
    + exists "37.4". vm_compute; reflexivity.
    + vm_compute in Hg. discriminate Hg.
  - split; [vm_compute; reflexivity |].
    split; [reflexivity |].
    split; [vm_compute; reflexivity |].
    intros Hall.
    specialize (Hall {["loc" := "1,2,3"]} "1" "2,3").
    assert (Hg : geo_message {["loc" := "1,2,3"]}
                 = inr ("sendLocation", [("latitude", "1"); ("longitude", "2,3")])).
    { apply Hall; [vm_compute; reflexivity | reflexivity]. }
    vm_compute in Hg. discriminate Hg.
Qed.

(** C9: when the [loc] of the answer contains no comma, the access to the
    second component of the split raises [IndexError] after the lookup and
    before any message is sent, and the guard lets it through; when it
    contains a comma the location message is sent. *)
Theorem ip_geo_partial_on_loc `{IPAddress}
    (self : bot) (m : rmatch) (ip : address)
    (record : gmap string string) (loc : string) :
  http_json self (IPINFO +:+ address_str ip +:+ "/geo") = inr record ->
  record !! "loc" = Some loc ->
  (contains "," loc = false ->
     index (split "," loc) 1 = inl IndexError
     /\ ip_geo_method self m ip
        = Run [HttpGet (IPINFO +:+ address_str ip +:+ "/geo")] (inl IndexError)
     /\ List.filter is_send (events (ip_geo_method self m ip)) = []
     /\ (forall raw, group m 2 = Some raw -> raw <> EmptyString ->
                     ip_address raw = Some ip ->
                     ip_geo self m
                     = Run [HttpGet (IPINFO +:+ address_str ip +:+ "/geo")]
                           (inl IndexError)))
  /\ (contains "," loc = true ->
      exists lat lon,
        List.filter is_send (events (ip_geo_method self m ip))
        = [SendToChat "sendLocation" [("latitude", lat); ("longitude", lon)]]).
Proof.
  intros Hq Hloc. split.
  - intros Hc.
    pose proof (ip_geo_method_raises self m ip record IndexError Hq
                  (geo_message_without_comma record loc Hloc Hc)) as Hrun.
    split; [exact (index_split_1 _ _ Hc) |].
    split; [exact Hrun |].
    split; [now rewrite Hrun |].
    intros raw Hm Hne Hp. unfold ip_geo.
    rewrite (check_ip_valid _ self m raw ip Hm Hne Hp), Hrun.
    now apply try_except_other.
  - intros Hc.
    destruct (geo_message_with_comma record loc Hloc Hc) as (lat & lon & Hg).
    exists lat, lon.
    rewrite (ip_geo_method_sends self m ip record _ _ Hq Hg).
    cbn [events List.filter is_send]. now rewrite track_message_no_send.
Qed.

Lemma ip_geo_partial_on_loc_witness :
  @ip_geo DottedQuad.lib (sample_bot None (inr {["loc" := "37.4"]}) None)
    (matched_arg (Some "8.8.8.8"))
  = Run [HttpGet "https://ipinfo.io/8.8.8.8/geo"] (inl IndexError).
Proof.
  refine (proj2 (proj2 (proj2 (proj1
            (@ip_geo_partial_on_loc DottedQuad.lib
               (sample_bot None (inr {["loc" := "37.4"]}) None)
               (matched_arg (Some "8.8.8.8")) [8; 8; 8; 8]%N
               {["loc" := "37.4"]} "37.4" eq_refl _) _)))
          "8.8.8.8" _ _ _).
  - vm_compute; reflexivity.
  - reflexivity.
  - vm_compute; reflexivity.
  - discriminate.
  - vm_compute; reflexivity.
Defined.

(** ** The /ip reply *)

Lemma fill_required_lookup_ip (d : gmap string string) :
  fill_required d !! "ip" = d !! "ip".
Proof.
  rewrite fill_required_lookup. apply decide_False.
  intros Hin. unfold REQUIRED_KEYS in Hin.
  repeat (apply elem_of_cons in Hin as [Hin | Hin]; [discriminate Hin |]).
  now apply not_elem_of_nil in Hin.
Qed.

Lemma fill_required_lookup_key (d : gmap string string) (k : string) :
  k ∈ REQUIRED_KEYS ->
  fill_required d !! k = Some (default EmptyString (d !! k)).
Proof. intros Hin. rewrite fill_required_lookup. now apply decide_True. Qed.

Lemma format_filled (record : gmap string string) (a : string) :
  record !! "ip" = Some a ->
  format BASE_TEMPLATE (fill_required record)
  = inr (rendered_base a
           (default EmptyString (record !! "hostname"))
           (default EmptyString (record !! "org"))
           (default EmptyString (record !! "country"))
           (default EmptyString (record !! "city"))
           (default EmptyString (record !! "loc"))).
Proof.
  intros Hip. apply format_base_template.
  - now rewrite fill_required_lookup_ip.
  - apply fill_required_lookup_key. unfold REQUIRED_KEYS. repeat constructor.
  - apply fill_required_lookup_key. unfold REQUIRED_KEYS. repeat constructor.
  - apply fill_required_lookup_key. unfold REQUIRED_KEYS. repeat constructor.
  - apply fill_required_lookup_key. unfold REQUIRED_KEYS. repeat constructor.
  - apply fill_required_lookup_key. unfold REQUIRED_KEYS. repeat constructor.
Qed.

(** C3 (as amended): for every answer of the lookup that has the [ip]
    field, the /ip path puts the empty string in the place of each of
    [org], [country], [loc], [city], [hostname] that is absent, renders
    the template with the fields it has and sends it as one Markdown
    message; nothing raises up to the send, so the run ends as the
    tracking that follows it ends, and it returns when the answer to the
    send has dicts where the tracking looks for them; an answer with [ip]
    and none of the five renders every other slot empty. *)
Theorem formatBase_fills_absent_fields `{IPAddress}
    (self : bot) (m : rmatch) (ip : address)
    (record : gmap string string) (a : string) :
  http_json self (IPINFO +:+ address_str ip +:+ "/json") = inr record ->
  record !! "ip" = Some a ->
  (forall k, k ∈ REQUIRED_KEYS ->
             fill_required record !! k = Some (default EmptyString (record !! k)))
  /\ format BASE_TEMPLATE (fill_required record)
     = inr (rendered_base a
              (default EmptyString (record !! "hostname"))
              (default EmptyString (record !! "org"))
              (default EmptyString (record !! "country"))
              (default EmptyString (record !! "city"))
              (default EmptyString (record !! "loc")))
  /\ List.filter is_send (events (ip_base_method self m ip))
     = [SendToChat "sendMessage"
          [("text", rendered_base a
                      (default EmptyString (record !! "hostname"))
                      (default EmptyString (record !! "org"))
                      (default EmptyString (record !! "country"))
                      (default EmptyString (record !! "city"))
                      (default EmptyString (record !! "loc")));
           ("parse_mode", "Markdown")]]
  /\ outcome (ip_base_method self m ip)
     = outcome (track_message self
                  (send_result self "sendMessage"
                     [("text", rendered_base a
                                 (default EmptyString (record !! "hostname"))
                                 (default EmptyString (record !! "org"))
                                 (default EmptyString (record !! "country"))
                                 (default EmptyString (record !! "city"))
                                 (default EmptyString (record !! "loc")));
                      ("parse_mode", "Markdown")]) "Ip")
  /\ (dicts_on_path
        (send_result self "sendMessage"
           [("text", rendered_base a
                       (default EmptyString (record !! "hostname"))
                       (default EmptyString (record !! "org"))
                       (default EmptyString (record !! "country"))
                       (default EmptyString (record !! "city"))
                       (default EmptyString (record !! "loc")));
            ("parse_mode", "Markdown")]) = true ->
      returned (ip_base_method self m ip) = true)
  /\ ((forall k, k ∈ REQUIRED_KEYS -> record !! k = None) ->
      format BASE_TEMPLATE (fill_required record)
      = inr (rendered_base a EmptyString EmptyString EmptyString
               EmptyString EmptyString)).
Proof.
  intros Hq Hip.
  pose proof (format_filled record a Hip) as Hf.
  pose proof (ip_base_method_sends self m ip record _ Hq Hf) as Hrun.
  split; [intros k Hk; now apply fill_required_lookup_key |].
  split; [exact Hf |].
  split.
  { rewrite Hrun. cbn [events List.filter is_send].
    now rewrite track_message_no_send. }
  split; [now rewrite Hrun |].
  split.
  { intros Hpath. rewrite Hrun. unfold returned. cbn [outcome].
    now rewrite track_message_returns. }
  intros Hnone. rewrite Hf.
  rewrite !Hnone by (unfold REQUIRED_KEYS; repeat constructor).
  reflexivity.
Qed.

Lemma formatBase_fills_absent_fields_witness :
  List.filter is_send
    (events (@ip_base_method DottedQuad.lib
               (sample_bot None (inr {["ip" := "8.8.8.8"]}) None)
               ∅ [8; 8; 8; 8]%N))
  = [SendToChat "sendMessage"
       [("text", rendered_base "8.8.8.8" EmptyString EmptyString EmptyString
                   EmptyString EmptyString);
        ("parse_mode", "Markdown")]].
Proof.
  refine (proj1 (proj2 (proj2
            (@formatBase_fills_absent_fields DottedQuad.lib
               (sample_bot None (inr {["ip" := "8.8.8.8"]}) None)
               ∅ [8; 8; 8; 8]%N {["ip" := "8.8.8.8"]} "8.8.8.8" eq_refl _)))).
  vm_compute; reflexivity.
Defined.

(** C3 as stated fails: the template has a sixth slot, [ip], that the
    loop over the required keys does not fill; on the empty record the
    rendering raises [KeyError] and nothing is sent. *)
Lemma formatBase_without_ip_counterexample :
  format BASE_TEMPLATE (fill_required ∅) = inl (KeyError "ip")
  /\ @ip_base_method DottedQuad.lib (sample_bot None (inr ∅) None)
       ∅ [8; 8; 8; 8]%N
     = Run [HttpGet "https://ipinfo.io/8.8.8.8/json"] (inl (KeyError "ip"))
  /\ ~ (forall record : gmap string string,
          exists text, format BASE_TEMPLATE (fill_required record) = inr text).
Proof.
  assert (Hf : format BASE_TEMPLATE (fill_required ∅) = inl (KeyError "ip")).
  { apply format_base_template_no_ip.
    rewrite fill_required_lookup_ip. apply lookup_empty. }
  split; [exact Hf |].
  split.
  - vm_compute; reflexivity.
  - intros Hall. destruct (Hall ∅) as [text Ht].
    rewrite Hf in Ht. discriminate Ht.
Qed.

(** ** The guard and its three outcomes *)

Lemma check_ip_validate `{IPAddress}
    (method_to_decorate : bot -> rmatch -> address -> M unit)
    (self : bot) (m : rmatch) :
  check_ip method_to_decorate self m
  = match validate (group m 2) with
    | MissingArgument =>
        Run [SendToChat "sendMessage"
               [("text", missing_argument_text); ("parse_mode", "Markdown")]]
            (inr tt)
    | InvalidAddress raw => Run [Reply (invalid_address_text raw)] (inr tt)
    | Validated raw a =>
        try_except_ValueError (method_to_decorate self m a)
          (reply (invalid_address_text raw))
    end.
Proof.
  unfold check_ip, validate.
  destruct (group m 2) as [[|c raw]|]; try reflexivity.
  destruct (ip_address (String c raw)); reflexivity.
Qed.

(** C2: a non-empty argument the parser rejects is an [InvalidAddress];
    the guard then sends one reply, the rejected text between double
    quotes followed by " is not valid ipv4 or ipv6 address", and returns;
    the result is the same whatever the decorated method is, so the method
    is not called. *)
Theorem check_ip_rejects_invalid_address `{IPAddress}
    (method_to_decorate : bot -> rmatch -> address -> M unit)
    (self : bot) (m : rmatch) (raw : string) :
  group m 2 = Some raw -> raw <> EmptyString -> ip_address raw = None ->
  validate (group m 2) = InvalidAddress raw
  /\ check_ip method_to_decorate self m
     = Run [Reply (dquote +:+ raw +:+ dquote
                   +:+ " is not valid ipv4 or ipv6 address")] (inr tt)
  /\ (forall other, check_ip other self m = check_ip method_to_decorate self m)
  /\ ip_base self m = check_ip method_to_decorate self m
  /\ ip_geo self m = check_ip method_to_decorate self m.
Proof.
  intros Hm Hne Hp.
  assert (Hall : forall f, check_ip f self m
                           = Run [Reply (invalid_address_text raw)] (inr tt)).
  { intros f. now apply check_ip_invalid. }
  split.
  { rewrite Hm. unfold validate. destruct raw; [congruence |]. now rewrite Hp. }
  split; [exact (Hall _) |].
  split; [intros other; now rewrite !Hall |].
  unfold ip_base, ip_geo. now rewrite !Hall.
Qed.

Lemma check_ip_rejects_invalid_address_witness :
  @dispatch DottedQuad.lib (sample_bot None (inr ∅) None) "/ip 256.1.1.1"
  = Run [Reply (dquote +:+ "256.1.1.1" +:+ dquote
                +:+ " is not valid ipv4 or ipv6 address")] (inr tt).
Proof.
  refine (eq_trans _ (proj1 (proj2
            (@check_ip_rejects_invalid_address DottedQuad.lib ip_base_method
               (sample_bot None (inr ∅) None)
               (<[0%nat := "/ip 256.1.1.1"]>
                  (<[1%nat := "/ip 256.1.1.1"]> (<[2%nat := "256.1.1.1"]> ∅)))
               "256.1.1.1" _ _ _)))).
  - vm_compute; reflexivity.
  - vm_compute; reflexivity.
  - discriminate.
  - vm_compute; reflexivity.
Defined.

(** C5: with the argument group absent or empty the guard finds a
    [MissingArgument]: it sends one Markdown message that asks for a valid
    ipv4 or ipv6 address and points to /help, and returns; the result is
    the same whatever the decorated method is, so the method is not
    called.  This holds for /ip and for /geo. *)
Theorem check_ip_missing_argument `{IPAddress}
    (method_to_decorate : bot -> rmatch -> address -> M unit)
    (self : bot) (m : rmatch) :
  group m 2 = None \/ group m 2 = Some EmptyString ->
  validate (group m 2) = MissingArgument
  /\ check_ip method_to_decorate self m
     = Run [SendToChat "sendMessage"
              [("text", "Please provide a valid ipv4 or ipv6 address for this command. Use /help command for examples.");
               ("parse_mode", "Markdown")]]
           (inr tt)
  /\ (forall other, check_ip other self m = check_ip method_to_decorate self m)
  /\ ip_base self m = check_ip method_to_decorate self m
  /\ ip_geo self m = check_ip method_to_decorate self m.
Proof.
  intros Hm.
  assert (Hall : forall f,
             check_ip f self m
             = Run [SendToChat "sendMessage"
                      [("text", missing_argument_text); ("parse_mode", "Markdown")]]
                   (inr tt)).
  { intros f. now apply check_ip_missing. }
  split; [destruct Hm as [-> | ->]; reflexivity |].
  split; [exact (Hall _) |].
  split; [intros other; now rewrite !Hall |].
  unfold ip_base, ip_geo. now rewrite !Hall.
Qed.

Lemma check_ip_missing_argument_witness :
  @ip_geo DottedQuad.lib (sample_bot None (inr ∅) None) (matched_arg None)
  = Run [SendToChat "sendMessage"
           [("text", "Please provide a valid ipv4 or ipv6 address for this command. Use /help command for examples.");
            ("parse_mode", "Markdown")]]
        (inr tt).
Proof.
  refine (eq_trans _ (proj1 (proj2
            (@check_ip_missing_argument DottedQuad.lib ip_geo_method
               (sample_bot None (inr ∅) None) (matched_arg None) _)))).
  - reflexivity.
  - left. reflexivity.
Defined.

Lemma try_except_events {A} (body handler : M A) :
  exists rest,
    events (try_except_ValueError body handler) = (events body ++ rest)%list.
Proof.
  unfold try_except_ValueError.
  destruct (outcome body) as [e|x].
  - destruct (is_ValueError e).
    + now exists (events handler).
    + exists []. now rewrite app_nil_r.
  - exists []. now rewrite app_nil_r.
Qed.

Lemma try_except_no_ValueError {A} (body handler : M A) :
  outcome body <> inl ValueError ->
  try_except_ValueError body handler = body.
Proof.
  unfold try_except_ValueError. intros Hne.
  destruct (outcome body) as [[ | | | | ]|x]; try reflexivity.
  congruence.
Qed.

Lemma ipinfo_query_first {B} (self : bot) (params : string)
    (k : gmap string string -> M B) :
  exists rest,
    events (bind (ipinfo_query self params) k)
    = HttpGet (IPINFO +:+ params) :: rest.
Proof.
  rewrite ipinfo_query_run. unfold bind; simpl.
  destruct (http_json self (IPINFO +:+ params)); simpl; eauto.
Qed.

(** C6: a non-empty argument the parser accepts is [Validated] with the
    parser's own address; the guard emits nothing of its own and runs the
    decorated method on that address (its events open the run, and the run
    is the method's own unless the method raises [ValueError]); the lookup
    of /ip and of /geo is the first event and its URL carries the
    canonical string of that address. *)
Theorem check_ip_passes_validated_address `{IPAddress}
    (method_to_decorate : bot -> rmatch -> address -> M unit)
    (self : bot) (m : rmatch) (raw : string) (a : address) :
  group m 2 = Some raw -> raw <> EmptyString -> ip_address raw = Some a ->
  validate (group m 2) = Validated raw a
  /\ check_ip method_to_decorate self m
     = try_except_ValueError (method_to_decorate self m a)
         (reply (invalid_address_text raw))
  /\ (exists rest,
         events (check_ip method_to_decorate self m)
         = (events (method_to_decorate self m a) ++ rest)%list)
  /\ (outcome (method_to_decorate self m a) <> inl ValueError ->
      check_ip method_to_decorate self m = method_to_decorate self m a)
  /\ (exists rest,
         events (ip_base self m)
         = HttpGet (IPINFO +:+ address_str a +:+ "/json") :: rest)
  /\ (exists rest,
         events (ip_geo self m)
         = HttpGet (IPINFO +:+ address_str a +:+ "/geo") :: rest).
Proof.
  intros Hm Hne Hp.
  assert (Hall : forall f, check_ip f self m
                           = try_except_ValueError (f self m a)
                               (reply (invalid_address_text raw))).
  { intros f. now apply check_ip_valid. }
  split.
  { rewrite Hm. unfold validate. destruct raw; [congruence |]. now rewrite Hp. }
  split; [exact (Hall _) |].
  split; [rewrite Hall; apply try_except_events |].
  split; [intros Hout; rewrite Hall; now apply try_except_no_ValueError |].
  split.
  - unfold ip_base. rewrite Hall.
    destruct (try_except_events (ip_base_method self m a)
                (reply (invalid_address_text raw))) as [rest ->].
    destruct (ipinfo_query_first self (address_str a +:+ "/json")
                (fun data =>
                   text <- lift (format BASE_TEMPLATE (fill_required data)) ;;
                   response <- send_to_chat self "sendMessage"
                                 [("text", text); ("parse_mode", "Markdown")] ;;
                   track_message self response "Ip")) as [rest' Hr].
    unfold ip_base_method. rewrite Hr. now exists (rest' ++ rest)%list.
  - unfold ip_geo. rewrite Hall.
    destruct (try_except_events (ip_geo_method self m a)
                (reply (invalid_address_text raw))) as [rest ->].
    destruct (ipinfo_query_first self (address_str a +:+ "/geo")
                (fun message =>
                   call <- lift (geo_message message) ;;
                   response <- send_to_chat self call.1 call.2 ;;
                   track_message self response "Ip_Geo")) as [rest' Hr].
    unfold ip_geo_method. rewrite Hr. now exists (rest' ++ rest)%list.
Qed.

Lemma check_ip_passes_validated_address_witness :
  exists rest,
    events (@dispatch DottedQuad.lib
              (sample_bot (Some "token") (inr {["ip" := "8.8.8.8"]}) (Some 42))
              "/ip 8.8.8.8")
    = HttpGet "https://ipinfo.io/8.8.8.8/json" :: rest.
Proof.
  refine (proj1 (proj2 (proj2 (proj2 (proj2
            (@check_ip_passes_validated_address DottedQuad.lib ip_base_method
               (sample_bot (Some "token") (inr {["ip" := "8.8.8.8"]}) (Some 42))
               (<[0%nat := "/ip 8.8.8.8"]>
                  (<[1%nat := "/ip 8.8.8.8"]> (<[2%nat := "8.8.8.8"]> ∅)))
               "8.8.8.8" [8; 8; 8; 8]%N _ _ _)))))).
  - vm_compute; reflexivity.
  - discriminate.
  - vm_compute; reflexivity.
Defined.

(** ** Tracking *)

Lemma track_message_label (self : bot) (message : response) (name : string)
    (ev : event) :
  In ev (events (track_message self message name)) ->
  exists u, ev = Track u name.
Proof.
  rewrite track_message_events.
  destruct (response_uid message) as [e|u]; [intros [] |].
  destruct (option_truthy str_truthy (botan_token self) && json_truthy u);
    [| intros []].
  intros [<- | []]. now exists u.
Qed.

Section TrackedRuns.
Context `{IPAddress}.
Variables (self : bot) (m : rmatch).

Lemma ip_base_method_tracks (a : address) (ev : event) :
  In ev (events (ip_base_method self m a)) -> is_track ev = true ->
  exists u, ev = Track u "Ip".
Proof.
  unfold ip_base_method. rewrite ipinfo_query_run.
  destruct (http_json self (IPINFO +:+ address_str a +:+ "/json")) as [e|data].
  { rewrite bind_raise. intros [<- | []]; discriminate. }
  rewrite bind_value. unfold lift at 1 2.
  destruct (format BASE_TEMPLATE (fill_required data)) as [e|text].
  { rewrite bind_raise. intros [<- | []]; discriminate. }
  rewrite bind_value, send_then_track.
  intros [<- | [<- | Hin]]; try discriminate.
  intros _. now apply track_message_label in Hin.
Qed.

Lemma ip_geo_method_tracks (a : address) (ev : event) :
  In ev (events (ip_geo_method self m a)) -> is_track ev = true ->
  exists u, ev = Track u "Ip_Geo".
Proof.
  unfold ip_geo_method. rewrite ipinfo_query_run.
  destruct (http_json self (IPINFO +:+ address_str a +:+ "/geo")) as [e|message].
  { rewrite bind_raise. intros [<- | []]; discriminate. }
  rewrite bind_value. unfold lift at 1 2.
  destruct (geo_message message) as [e|[method msg]].
  { rewrite bind_raise. intros [<- | []]; discriminate. }
  rewrite bind_value. cbn [fst snd]. rewrite send_then_track.
  intros [<- | [<- | Hin]]; try discriminate.
  intros _. now apply track_message_label in Hin.
Qed.

Lemma check_ip_tracks (method_to_decorate : bot -> rmatch -> address -> M unit)
    (ev : event) :
  In ev (events (check_ip method_to_decorate self m)) -> is_track ev = true ->
  exists raw a,
    validate (group m 2) = Validated raw a
    /\ In ev (events (method_to_decorate self m a)).
Proof.
  rewrite check_ip_validate.
  destruct (validate (group m 2)) as [|raw|raw a].
  - intros [<- | []]; discriminate.
  - intros [<- | []]; discriminate.
  - intros Hin Htr. exists raw, a. split; [reflexivity |].
    unfold try_except_ValueError in Hin.
    destruct (outcome (method_to_decorate self m a)) as [e|x]; [| exact Hin].
    destruct (is_ValueError e); [| exact Hin].
    cbn [events] in Hin. apply in_app_or in Hin as [Hin | [<- | []]].
    + exact Hin.
    + discriminate.
Qed.

End TrackedRuns.

(** C7: when the guard finds [MissingArgument] or [InvalidAddress], the
    run of /ip and of /geo is one send and nothing else (no lookup, no
    tracking call) and it returns without raising; and every tracking call
    in a run of /ip (label "Ip") or of /geo (label "Ip_Geo") comes from a
    run in which the argument was validated. *)
Theorem tracking_only_after_validation `{IPAddress}
    (self : bot) (m : rmatch) (run : M unit) :
  run = ip_base self m \/ run = ip_geo self m ->
  (validate (group m 2) = MissingArgument
   \/ (exists raw, validate (group m 2) = InvalidAddress raw) ->
   (exists ev, events run = [ev] /\ is_send ev = true)
   /\ List.filter is_lookup (events run) = []
   /\ List.filter is_track (events run) = []
   /\ returned run = true)
  /\ (forall ev, In ev (events run) -> is_track ev = true ->
        (exists raw a, validate (group m 2) = Validated raw a)
        /\ ((run = ip_base self m /\ exists u, ev = Track u "Ip")
            \/ (run = ip_geo self m /\ exists u, ev = Track u "Ip_Geo"))).
Proof.
  intros Hrun. split.
  - intros Hfail.
    assert (Hev : forall f,
               (exists ev, events (check_ip f self m) = [ev] /\ is_send ev = true)
               /\ List.filter is_lookup (events (check_ip f self m)) = []
               /\ List.filter is_track (events (check_ip f self m)) = []
               /\ returned (check_ip f self m) = true).
    { intros f. rewrite check_ip_validate.
      destruct Hfail as [-> | [raw ->]].
      - repeat split; eauto.
      - repeat split; eauto. }
    destruct Hrun as [-> | ->]; apply Hev.
  - intros ev Hin Htr. destruct Hrun as [-> | ->].
    + destruct (check_ip_tracks self m _ ev Hin Htr) as (raw & a & Hv & Hin').
      split; [eauto |]. left. split; [reflexivity |].
      exact (ip_base_method_tracks self m a ev Hin' Htr).
    + destruct (check_ip_tracks self m _ ev Hin Htr) as (raw & a & Hv & Hin').
      split; [eauto |]. right. split; [reflexivity |].
      exact (ip_geo_method_tracks self m a ev Hin' Htr).
Qed.

Lemma tracking_only_after_validation_witness :
  (exists ev,
      events (@ip_base DottedQuad.lib
                (sample_bot (Some "token") (inr {["ip" := "8.8.8.8"]}) (Some 42))
                (matched_arg (Some "999.1.1.1"))) = [ev]
      /\ is_send ev = true)
  /\ List.filter is_lookup
       (events (@ip_base DottedQuad.lib
                  (sample_bot (Some "token") (inr {["ip" := "8.8.8.8"]}) (Some 42))
                  (matched_arg (Some "999.1.1.1")))) = []
  /\ List.filter is_track
       (events (@ip_base DottedQuad.lib
                  (sample_bot (Some "token") (inr {["ip" := "8.8.8.8"]}) (Some 42))
                  (matched_arg (Some "999.1.1.1")))) = []
  /\ returned (@ip_base DottedQuad.lib
                 (sample_bot (Some "token") (inr {["ip" := "8.8.8.8"]}) (Some 42))
                 (matched_arg (Some "999.1.1.1"))) = true.
Proof.
  refine (proj1 (@tracking_only_after_validation DottedQuad.lib
            (sample_bot (Some "token") (inr {["ip" := "8.8.8.8"]}) (Some 42))
            (matched_arg (Some "999.1.1.1")) _ (or_introl eq_refl)) _).
  right. exists "999.1.1.1". vm_compute; reflexivity.
Defined.

(** A run on the success path, for comparison: lookup, reply, tracking. *)
Example ip_success_run :
  @dispatch DottedQuad.lib
    (sample_bot (Some "token") (inr {["ip" := "8.8.8.8"]}) (Some 42))
    "/ip 8.8.8.8"
  = Run [HttpGet "https://ipinfo.io/8.8.8.8/json";
         SendToChat "sendMessage"
           [("text", rendered_base "8.8.8.8" EmptyString EmptyString
                       EmptyString EmptyString EmptyString);
            ("parse_mode", "Markdown")];
         Track (JNumber 42) "Ip"]
        (inr tt).
Proof. vm_compute; reflexivity. Qed.

(** The chat id that [track_message] finds, read on the answer itself. *)
Lemma response_uid_found (message : response)
    (ms rs cs : list (string * json_value)) (uid : json_value) :
  message = JObject ms ->
  members_get "result" ms = Some (JObject rs) ->
  members_get "chat" rs = Some (JObject cs) ->
  members_get "id" cs = Some uid ->
  response_uid message = inr uid.
Proof.
  intros -> Hr Hc Hi. unfold response_uid. cbn [dict_get].
  rewrite Hr. cbn [dict_get]. rewrite Hc. cbn [dict_get]. now rewrite Hi.
Qed.

Lemma response_uid_truthy (message : response) (uid : json_value) :
  response_uid message = inr uid -> json_truthy uid = true ->
  exists ms rs cs,
    message = JObject ms
    /\ members_get "result" ms = Some (JObject rs)
    /\ members_get "chat" rs = Some (JObject cs)
    /\ members_get "id" cs = Some uid.
Proof.
  unfold response_uid.
  destruct message as [| | | | |ms]; cbn [dict_get]; try discriminate.
  destruct (members_get "result" ms) as [[| | | | |rs]|] eqn:Hr;
    cbn [dict_get members_get]; try discriminate.
  - destruct (members_get "chat" rs) as [[| | | | |cs]|] eqn:Hc;
      cbn [dict_get members_get]; try discriminate.
    + destruct (members_get "id" cs) as [v|] eqn:Hi.
      * intros [= ->] _. now exists ms, rs, cs.
      * intros [= <-]. discriminate.
    + intros [= <-]. discriminate.
  - intros [= <-]. discriminate.
Qed.

Lemma track_message_calls (self : bot) (message : response) (name token : string)
    (ms rs cs : list (string * json_value)) (uid : json_value) :
  botan_token self = Some token -> str_truthy token = true ->
  message = JObject ms ->
  members_get "result" ms = Some (JObject rs) ->
  members_get "chat" rs = Some (JObject cs) ->
  members_get "id" cs = Some uid -> json_truthy uid = true ->
  track_message self message name = Run [Track uid name] (inr tt).
Proof.
  intros Htok Ht Hm Hr Hc Hi Hu.
  unfold track_message.
  rewrite (response_uid_found message ms rs cs uid Hm Hr Hc Hi).
  unfold lift. rewrite bind_value, Htok. cbn [option_truthy].
  now rewrite Ht, Hu.
Qed.

(** C10 (as amended): [track_message] never sends anything to the user and
    makes no lookup; it makes a tracking call only when the bot has a
    non-empty botan token and the answer of the send is a dict whose
    [result] is a dict whose [chat] is a dict with a truthy [id], and then
    it makes exactly that call and returns; whenever the answer is a dict
    whose [result] and [chat], when present, are dicts, it returns without
    raising, with no call in every other case; the only exception it
    raises is [AttributeError], on an answer that is not of that shape. *)
Theorem track_message_gated (self : bot) (message : response) (name : string) :
  List.filter is_send (events (track_message self message name)) = []
  /\ List.filter is_lookup (events (track_message self message name)) = []
  /\ (events (track_message self message name) = []
      \/ exists token ms rs cs uid,
           botan_token self = Some token /\ str_truthy token = true
           /\ message = JObject ms
           /\ members_get "result" ms = Some (JObject rs)
           /\ members_get "chat" rs = Some (JObject cs)
           /\ members_get "id" cs = Some uid
           /\ json_truthy uid = true
           /\ events (track_message self message name) = [Track uid name])
  /\ (forall token ms rs cs uid,
        botan_token self = Some token -> str_truthy token = true ->
        message = JObject ms ->
        members_get "result" ms = Some (JObject rs) ->
        members_get "chat" rs = Some (JObject cs) ->
        members_get "id" cs = Some uid -> json_truthy uid = true ->
        track_message self message name = Run [Track uid name] (inr tt))
  /\ (dicts_on_path message = true ->
      returned (track_message self message name) = true)
  /\ (returned (track_message self message name) = false ->
      outcome (track_message self message name) = inl AttributeError
      /\ dicts_on_path message = false).
Proof.
  split; [apply track_message_no_send |].
  split; [apply track_message_no_lookup |].
  split.
  { rewrite track_message_events.
    destruct (response_uid message) as [e|uid] eqn:Hu; [now left |].
    destruct (botan_token self) as [token|] eqn:Htok; [| now left].
    cbn [option_truthy].
    destruct (str_truthy token) eqn:Ht; [| now left].
    destruct (json_truthy uid) eqn:Hj; [| now left].
    right. destruct (response_uid_truthy message uid Hu Hj)
      as (ms & rs & cs & Hm & Hr & Hc & Hi).
    exists token, ms, rs, cs, uid. repeat split; auto. }
  split.
  { intros token ms rs cs uid. apply track_message_calls. }
  split.
  { intros Hp. unfold returned. now rewrite track_message_returns. }
  unfold returned. rewrite track_message_outcome.
  destruct (response_uid message) as [e|uid] eqn:Hu; [| discriminate].
  intros _. destruct (response_uid_off_path message e Hu) as [-> Hp].
  now split.
Qed.

Lemma track_message_gated_witness :
  track_message (sample_bot (Some "token") (inr ∅) (Some 42))
    (JObject [("ok", JBool true);
              ("result", JObject [("chat", JObject [("id", JNumber 42)])])])
    "Help"
  = Run [Track (JNumber 42) "Help"] (inr tt).
Proof.
  refine (proj1 (proj2 (proj2 (proj2
            (track_message_gated (sample_bot (Some "token") (inr ∅) (Some 42))
               (JObject [("ok", JBool true);
                         ("result",
                          JObject [("chat", JObject [("id", JNumber 42)])])])
               "Help"))))
          "token" _ _ _ (JNumber 42) _ _ _ _ _ _ _);
    reflexivity.
Defined.

(** C10 as stated fails: the chain of [get] runs before the token is
    looked at and raises [AttributeError] as soon as the answer, its
    [result] or its [chat] is something other than a dict, with or without
    a botan token. *)
Lemma track_message_non_dict_counterexample :
  track_message (sample_bot None (inr ∅) None)
    (JObject [("ok", JBool true); ("result", JBool true)]) "Help"
  = Run [] (inl AttributeError)
  /\ track_message (sample_bot (Some "token") (inr ∅) None)
       (JObject [("ok", JBool true); ("result", JObject [("chat", JNull)])])
       "Help"
     = Run [] (inl AttributeError)
  /\ track_message (sample_bot None (inr ∅) None) (JArray []) "Help"
     = Run [] (inl AttributeError)
  /\ ~ (forall (self : bot) (message : response) (name : string),
          returned (track_message self message name) = true).
Proof.
  split; [reflexivity |].
  split; [reflexivity |].
  split; [reflexivity |].
  intros Hall.
  specialize (Hall (sample_bot None (inr ∅) None)
                (JObject [("ok", JBool true); ("result", JBool true)]) "Help").
  discriminate Hall.
Qed.

(** ** The static replies *)

(** C8: /start is routed to [greeting], which sends the text [HELP] ("This
    bot allows you to get ...") and makes no tracking call; /help is routed
    to [help], which sends the text [GREETING] ("Hi! I'm ipinfo.io bot
    ...", with the list of commands) and then runs [track_message] on the
    answer to that send with the label "Help": with a non-empty botan
    token and a truthy chat id in the answer the run is the send followed
    by the tracking call under "Help", and no tracking call of /help
    carries another label. *)
Theorem start_and_help_bodies `{IPAddress} (self : bot) (m : rmatch) :
  fst <$> route _commands "/start" = Some h_greeting
  /\ fst <$> route _commands "/help" = Some h_help
  /\ call h_greeting self m
     = Run [SendToChat "sendMessage" [("text", HELP); ("parse_mode", "Markdown")]]
           (inr tt)
  /\ List.filter is_track (events (call h_greeting self m)) = []
  /\ call h_help self m
     = Run (SendToChat "sendMessage"
              [("text", GREETING); ("parse_mode", "Markdown")]
            :: events (track_message self
                         (send_result self "sendMessage"
                            [("text", GREETING); ("parse_mode", "Markdown")])
                         "Help"))
           (outcome (track_message self
                       (send_result self "sendMessage"
                          [("text", GREETING); ("parse_mode", "Markdown")])
                       "Help"))
  /\ (forall token ms rs cs uid,
        botan_token self = Some token -> str_truthy token = true ->
        send_result self "sendMessage"
          [("text", GREETING); ("parse_mode", "Markdown")] = JObject ms ->
        members_get "result" ms = Some (JObject rs) ->
        members_get "chat" rs = Some (JObject cs) ->
        members_get "id" cs = Some uid -> json_truthy uid = true ->
        call h_help self m
        = Run [SendToChat "sendMessage"
                 [("text", GREETING); ("parse_mode", "Markdown")];
               Track uid "Help"]
              (inr tt))
  /\ (forall ev, In ev (events (call h_help self m)) -> is_track ev = true ->
                 exists uid, ev = Track uid "Help")
  /\ HELP = "This bot allows you to get a simple information about giving IP address. All data provided by http://ipinfo.io/ service."
  /\ GREETING
     = "Hi! I'm ipinfo.io bot and I can give you IP geolocation info about any IP address you send to me."
       +:+ nl +:+ nl +:+ "You can control me by sending these commands:"
       +:+ nl +:+ nl +:+ "/ip {ip} - get infromation about the IP"
       +:+ nl +:+ "/geo {ip} - get location on a map for the IP".
Proof.
  assert (Hhelp : call h_help self m
                  = Run (SendToChat "sendMessage"
                           [("text", GREETING); ("parse_mode", "Markdown")]
                         :: events (track_message self
                                      (send_result self "sendMessage"
                                         [("text", GREETING);
                                          ("parse_mode", "Markdown")])
                                      "Help"))
                        (outcome (track_message self
                                    (send_result self "sendMessage"
                                       [("text", GREETING);
                                        ("parse_mode", "Markdown")])
                                    "Help"))).
  { cbn [call]. unfold help. apply send_then_track. }
  split; [vm_compute; reflexivity |].
  split; [vm_compute; reflexivity |].
  split; [reflexivity |].
  split; [reflexivity |].
  split; [exact Hhelp |].
  split.
  { intros token ms rs cs uid Htok Ht Hm Hr Hc Hi Hu. rewrite Hhelp.
    now rewrite (track_message_calls self _ "Help" token ms rs cs uid
                   Htok Ht Hm Hr Hc Hi Hu). }
  split; [| split; reflexivity].
  intros ev Hin Htr. rewrite Hhelp in Hin. cbn [events] in Hin.
  destruct Hin as [<- | Hin]; [discriminate Htr |].
  now apply track_message_label in Hin.
Qed.

Lemma start_and_help_bodies_witness :
  @call DottedQuad.lib h_help (sample_bot (Some "token") (inr ∅) (Some 42)) ∅
  = Run [SendToChat "sendMessage"
           [("text", GREETING); ("parse_mode", "Markdown")];
         Track (JNumber 42) "Help"]
        (inr tt).
Proof.
  refine (proj1 (proj2 (proj2 (proj2 (proj2 (proj2
            (@start_and_help_bodies DottedQuad.lib
               (sample_bot (Some "token") (inr ∅) (Some 42)) ∅))))))
          "token" _ _ _ (JNumber 42) _ _ _ _ _ _ _);
    reflexivity.
Defined.

(** ** The router *)

Lemma route_first_match (commands : list (regex * handler)) (text : string)
    (h : handler) (mt : rmatch) :
  route commands text = Some (h, mt) ->
  exists before pattern after,
    commands = (before ++ (pattern, h) :: after)%list
    /\ re_match pattern text = Some mt
    /\ Forall (fun c => re_match c.1 text = None) before.
Proof.
  induction commands as [|[pattern h'] rest IH]; simpl; [discriminate |].
  destruct (re_match pattern text) as [mt'|] eqn:Hm.
  - intros [= -> ->]. exists [], pattern, rest. repeat split; auto.
  - intros Hr. destruct (IH Hr) as (before & p & after & -> & Hp & Hbefore).
    exists ((pattern, h') :: before), p, after. repeat split; auto.
Qed.

(** C4: the table holds the five patterns in the order /start, /help,
    /ping, /ip with optional argument, /geo with optional argument; the
    handler that runs is the one of the first pattern that matches, every
    pattern before it failing; "/ip 8.8.8.8" runs the /ip handler with
    argument "8.8.8.8"; "/geo" runs the /geo handler with no argument,
    which the guard answers with the missing-argument message. *)
Theorem router_first_match_precedence `{IPAddress} (self : bot) :
  _commands
  = [ (Lit "/start", h_greeting); (Lit "/help", h_help); (Lit "/ping", h_ping);
      (command_arg "/ip", h_ip_base); (command_arg "/geo", h_ip_geo) ]
  /\ (forall text h mt,
        route _commands text = Some (h, mt) ->
        dispatch self text = call h self mt
        /\ exists before pattern after,
             _commands = (before ++ (pattern, h) :: after)%list
             /\ re_match pattern text = Some mt
             /\ Forall (fun c => re_match c.1 text = None) before)
  /\ (exists mt,
        route _commands "/ip 8.8.8.8" = Some (h_ip_base, mt)
        /\ group mt 2 = Some "8.8.8.8"
        /\ dispatch self "/ip 8.8.8.8" = ip_base self mt)
  /\ (exists mt,
        route _commands "/geo" = Some (h_ip_geo, mt)
        /\ group mt 2 = None
        /\ validate (group mt 2) = MissingArgument
        /\ dispatch self "/geo" = ip_geo self mt
        /\ dispatch self "/geo"
           = Run [SendToChat "sendMessage"
                    [("text", missing_argument_text); ("parse_mode", "Markdown")]]
                 (inr tt)).
Proof.
  split; [reflexivity |].
  split.
  { intros text h mt Hr. split.
    - unfold dispatch. now rewrite Hr.
    - now apply route_first_match. }
  split.
  - exists (<[0%nat := "/ip 8.8.8.8"]>
              (<[1%nat := "/ip 8.8.8.8"]> (<[2%nat := "8.8.8.8"]> (∅ : rmatch)))).
    assert (Hr : route _commands "/ip 8.8.8.8"
                 = Some (h_ip_base,
                         <[0%nat := "/ip 8.8.8.8"]>
                           (<[1%nat := "/ip 8.8.8.8"]>
                              (<[2%nat := "8.8.8.8"]> (∅ : rmatch)))))
      by (vm_compute; reflexivity).
    split; [exact Hr |].
    split; [vm_compute; reflexivity |].
    unfold dispatch. now rewrite Hr.
  - exists (<[0%nat := "/geo"]> (<[1%nat := "/geo"]> (∅ : rmatch))).
    assert (Hr : route _commands "/geo"
                 = Some (h_ip_geo,
                         <[0%nat := "/geo"]> (<[1%nat := "/geo"]> (∅ : rmatch))))
      by (vm_compute; reflexivity).
    split; [exact Hr |].
    split; [vm_compute; reflexivity |].
    split; [vm_compute; reflexivity |].
    assert (Hd : dispatch self "/geo"
                 = ip_geo self (<[0%nat := "/geo"]> (<[1%nat := "/geo"]> ∅))).
    { unfold dispatch. now rewrite Hr. }
    split; [exact Hd |].
    rewrite Hd. apply check_ip_missing. left. vm_compute; reflexivity.
Qed.

Lemma router_first_match_precedence_witness :
  @dispatch DottedQuad.lib (sample_bot None (inr ∅) None) "/ping"
  = Run [SendText "test pong!"] (inr tt).
Proof.
  refine (eq_trans
            (proj1 (proj1 (proj2
               (@router_first_match_precedence DottedQuad.lib
                  (sample_bot None (inr ∅) None)))
               "/ping" h_ping (<[0%nat := "/ping"]> ∅) _)) _).
  - vm_compute; reflexivity.
  - reflexivity.
Defined.

(** * Further properties of the code *)

(** ** Failures of the lookup under the guard *)

Lemma try_except_caught {A} (tr : list event) (handler : M A) :
  try_except_ValueError (Run tr (inl ValueError)) handler
  = Run (tr ++ events handler) (outcome handler).
Proof. reflexivity. Qed.

Lemma ip_base_method_lookup_fails `{IPAddress} (self : bot) (m : rmatch)
    (a : address) (e : exn) :
  http_json self (IPINFO +:+ address_str a +:+ "/json") = inl e ->
  ip_base_method self m a
  = Run [HttpGet (IPINFO +:+ address_str a +:+ "/json")] (inl e).
Proof.
  intros Hq. unfold ip_base_method. now rewrite ipinfo_query_run, Hq, bind_raise.
Qed.

Lemma ip_geo_method_lookup_fails `{IPAddress} (self : bot) (m : rmatch)
    (a : address) (e : exn) :
  http_json self (IPINFO +:+ address_str a +:+ "/geo") = inl e ->
  ip_geo_method self m a
  = Run [HttpGet (IPINFO +:+ address_str a +:+ "/geo")] (inl e).
Proof.
  intros Hq. unfold ip_geo_method. now rewrite ipinfo_query_run, Hq, bind_raise.
Qed.

(** X1: the [try] of the guard also covers the call of the decorated
    method, so a [ValueError] raised while the answer of the lookup is read
    is caught by the guard: for a valid address the user is told that the
    address "is not valid", after the lookup was made, and the command
    returns. *)
Theorem lookup_ValueError_reported_as_invalid_address `{IPAddress}
    (self : bot) (m : rmatch) (raw : string) (a : address) :
  group m 2 = Some raw -> raw <> EmptyString -> ip_address raw = Some a ->
  (http_json self (IPINFO +:+ address_str a +:+ "/json") = inl ValueError ->
   ip_base self m
   = Run [HttpGet (IPINFO +:+ address_str a +:+ "/json");
          Reply (invalid_address_text raw)] (inr tt))
  /\ (http_json self (IPINFO +:+ address_str a +:+ "/geo") = inl ValueError ->
      ip_geo self m
      = Run [HttpGet (IPINFO +:+ address_str a +:+ "/geo");
             Reply (invalid_address_text raw)] (inr tt))
  /\ (forall method_to_decorate tr,
        method_to_decorate self m a = Run tr (inl ValueError) ->
        check_ip method_to_decorate self m
        = Run (tr ++ [Reply (invalid_address_text raw)]) (inr tt)).
Proof.
  intros Hm Hne Hp.
  assert (Hall : forall f tr,
             f self m a = Run tr (inl ValueError) ->
             check_ip f self m
             = Run (tr ++ [Reply (invalid_address_text raw)]) (inr tt)).
  { intros f tr Hf.
    rewrite (check_ip_valid f self m raw a Hm Hne Hp), Hf.
    apply try_except_caught. }
  split; [| split; [| exact Hall]].
  - intros Hq. unfold ip_base.
    now rewrite (Hall _ _ (ip_base_method_lookup_fails self m a _ Hq)).
  - intros Hq. unfold ip_geo.
    now rewrite (Hall _ _ (ip_geo_method_lookup_fails self m a _ Hq)).
Qed.

Lemma lookup_ValueError_reported_as_invalid_address_witness :
  @ip_base DottedQuad.lib (sample_bot None (inl ValueError) None)
    (matched_arg (Some "8.8.8.8"))
  = Run [HttpGet "https://ipinfo.io/8.8.8.8/json";
         Reply (invalid_address_text "8.8.8.8")] (inr tt).
Proof.
  refine (proj1 (@lookup_ValueError_reported_as_invalid_address DottedQuad.lib
            (sample_bot None (inl ValueError) None)
            (matched_arg (Some "8.8.8.8")) "8.8.8.8" [8; 8; 8; 8]%N _ _ _) _).
  - vm_compute; reflexivity.
  - discriminate.
  - vm_compute; reflexivity.
  - reflexivity.
Defined.

(** X2: any other exception of the lookup passes through the guard: the
    command raises it after the one lookup, the user receives nothing and
    no tracking call is made. *)
Theorem lookup_error_propagates `{IPAddress}
    (self : bot) (m : rmatch) (raw : string) (a : address) (e : exn) :
  group m 2 = Some raw -> raw <> EmptyString -> ip_address raw = Some a ->
  is_ValueError e = false ->
  (http_json self (IPINFO +:+ address_str a +:+ "/json") = inl e ->
   ip_base self m
   = Run [HttpGet (IPINFO +:+ address_str a +:+ "/json")] (inl e))
  /\ (http_json self (IPINFO +:+ address_str a +:+ "/geo") = inl e ->
      ip_geo self m
      = Run [HttpGet (IPINFO +:+ address_str a +:+ "/geo")] (inl e)).
Proof.
  intros Hm Hne Hp He. split; intros Hq.
  - unfold ip_base.
    rewrite (check_ip_valid _ self m raw a Hm Hne Hp),
      (ip_base_method_lookup_fails self m a e Hq).
    now apply try_except_other.
  - unfold ip_geo.
    rewrite (check_ip_valid _ self m raw a Hm Hne Hp),
      (ip_geo_method_lookup_fails self m a e Hq).
    now apply try_except_other.
Qed.

Lemma lookup_error_propagates_witness :
  @ip_geo DottedQuad.lib (sample_bot None (inl (OtherError "ClientError")) None)
    (matched_arg (Some "8.8.8.8"))
  = Run [HttpGet "https://ipinfo.io/8.8.8.8/geo"]
        (inl (OtherError "ClientError")).
Proof.
  refine (proj2 (@lookup_error_propagates DottedQuad.lib
            (sample_bot None (inl (OtherError "ClientError")) None)
            (matched_arg (Some "8.8.8.8")) "8.8.8.8" [8; 8; 8; 8]%N
            (OtherError "ClientError") _ _ _ _) _).
  - vm_compute; reflexivity.
  - discriminate.
  - vm_compute; reflexivity.
  - reflexivity.
  - reflexivity.
Defined.

(** X3: whatever else the answer holds, an answer without the [ip] field
    makes /ip raise [KeyError] for [ip] after the lookup; the guard lets
    it through, nothing is sent and no tracking call is made. *)
Theorem ip_base_requires_ip_field `{IPAddress}
    (self : bot) (m : rmatch) (raw : string) (a : address)
    (record : gmap string string) :
  group m 2 = Some raw -> raw <> EmptyString -> ip_address raw = Some a ->
  http_json self (IPINFO +:+ address_str a +:+ "/json") = inr record ->
  record !! "ip" = None ->
  ip_base self m
  = Run [HttpGet (IPINFO +:+ address_str a +:+ "/json")] (inl (KeyError "ip")).
Proof.
  intros Hm Hne Hp Hq Hip. unfold ip_base.
  rewrite (check_ip_valid _ self m raw a Hm Hne Hp).
  rewrite (ip_base_method_raises self m a record (KeyError "ip") Hq).
  - now apply try_except_other.
  - apply format_base_template_no_ip. now rewrite fill_required_lookup_ip.
Qed.

Lemma ip_base_requires_ip_field_witness :
  @ip_base DottedQuad.lib
    (sample_bot (Some "token") (inr {["city" := "Mountain View"]}) (Some 42))
    (matched_arg (Some "8.8.8.8"))
  = Run [HttpGet "https://ipinfo.io/8.8.8.8/json"] (inl (KeyError "ip")).
Proof.
  refine (@ip_base_requires_ip_field DottedQuad.lib
            (sample_bot (Some "token") (inr {["city" := "Mountain View"]}) (Some 42))
            (matched_arg (Some "8.8.8.8")) "8.8.8.8" [8; 8; 8; 8]%N
            {["city" := "Mountain View"]} _ _ _ _ _).
  - vm_compute; reflexivity.
  - discriminate.
  - vm_compute; reflexivity.
  - reflexivity.
  - vm_compute; reflexivity.
Defined.

(** ** The loop over the required keys *)

(** X4: the loop over [REQUIRED_KEYS] only adds: every field of the answer
    keeps its value (an empty one included), a field that was absent is
    afterwards the empty string when it is one of the five required keys
    and still absent otherwise, and the keys are those of the answer
    together with the five. *)
Theorem fill_required_adds_only_missing (data : gmap string string) :
  (forall k v, data !! k = Some v -> fill_required data !! k = Some v)
  /\ (forall k, data !! k = None ->
                fill_required data !! k
                = if decide (k ∈ REQUIRED_KEYS) then Some EmptyString else None)
  /\ dom (fill_required data) = dom data ∪ list_to_set REQUIRED_KEYS.
Proof.
  split; [| split].
  - intros k v Hk. rewrite fill_required_lookup, Hk.
    now destruct (decide (k ∈ REQUIRED_KEYS)).
  - intros k Hk. now rewrite fill_required_lookup, Hk.
  - apply set_eq. intros k.
    rewrite elem_of_union, !elem_of_dom, elem_of_list_to_set,
      fill_required_lookup.
    destruct (decide (k ∈ REQUIRED_KEYS)) as [Hin | Hin].
    + split; [intros _; now right | intros _; eauto].
    + split; [intros Hk; now left | intros [Hk | Hk]; [exact Hk | contradiction]].
Qed.

Lemma fill_required_adds_only_missing_witness :
  fill_required {["city" := EmptyString]} !! "city" = Some EmptyString.
Proof.
  refine (proj1 (fill_required_adds_only_missing {["city" := EmptyString]})
            "city" EmptyString _).
  vm_compute; reflexivity.
Defined.

(** X5: running the loop a second time changes nothing. *)
Theorem fill_required_idempotent (data : gmap string string) :
  fill_required (fill_required data) = fill_required data.
Proof.
  apply map_eq. intros k.
  rewrite (fill_required_lookup (fill_required data)), fill_required_lookup.
  destruct (decide (k ∈ REQUIRED_KEYS)); reflexivity.
Qed.

(** X6: the text of the /ip reply is decided by the six fields of the
    template alone: two answers that agree on [ip] and on the five
    required keys are rendered alike (to the same text or to the same
    [KeyError]), whatever other fields they hold. *)
Theorem rendering_ignores_other_fields (r1 r2 : gmap string string) :
  (forall k, k ∈ "ip" :: REQUIRED_KEYS -> r1 !! k = r2 !! k) ->
  format BASE_TEMPLATE (fill_required r1) = format BASE_TEMPLATE (fill_required r2).
Proof.
  intros Hagree.
  assert (Hip : r1 !! "ip" = r2 !! "ip") by (apply Hagree; left).
  destruct (r1 !! "ip") as [a|] eqn:H1.
  - rewrite (format_filled r1 a H1), (format_filled r2 a (eq_sym Hip)).
    rewrite !Hagree by (unfold REQUIRED_KEYS; repeat constructor).
    reflexivity.
  - rewrite !format_base_template_no_ip; try reflexivity;
      rewrite fill_required_lookup_ip; congruence.
Qed.

Lemma rendering_ignores_other_fields_witness :
  format BASE_TEMPLATE
    (fill_required (<["region" := "California"]> {["ip" := "8.8.8.8"]}))
  = format BASE_TEMPLATE (fill_required {["ip" := "8.8.8.8"]}).
Proof.
  apply (rendering_ignores_other_fields
           (<["region" := "California"]> {["ip" := "8.8.8.8"]})
           {["ip" := "8.8.8.8"]}).
  intros k Hk. apply lookup_insert_ne. intros <-.
  unfold REQUIRED_KEYS in Hk.
  repeat (apply elem_of_cons in Hk as [Hk | Hk]; [discriminate Hk |]).
  now apply not_elem_of_nil in Hk.
Defined.

(** ** The pieces of [loc] *)

Lemma split_head (sep : ascii) (s p : string) (ps : list string) :
  split sep s = p :: ps ->
  contains sep p = false
  /\ match ps with
     | [] => s = p
     | _ :: _ => exists t, s = p +:+ String sep t /\ split sep t = ps
     end.
Proof.
  revert p ps. induction s as [|c s IH]; intros p ps; simpl.
  - intros [= <- <-]. split; reflexivity.
  - destruct (Ascii.eqb c sep) eqn:Hc.
    + intros [= <- <-]. apply Ascii.eqb_eq in Hc as ->.
      split; [reflexivity |].
      destruct (split sep s) as [|q qs] eqn:Hs; [now apply split_nonempty in Hs |].
      exists s. split; [reflexivity | exact Hs].
    + destruct (split sep s) as [|q qs] eqn:Hs; [now apply split_nonempty in Hs |].
      intros [= <- <-]. destruct (IH q qs eq_refl) as [Hq Hrest].
      split; [simpl; now rewrite Hc, Hq |].
      destruct qs as [|q' qs'].
      * now rewrite Hrest.
      * destruct Hrest as (t & -> & Ht). exists t. split; [reflexivity | exact Ht].
Qed.

(** X7: whenever /geo chooses the location message, [loc] is present and
    reads [latitude,longitude] followed by nothing or by a further comma
    and more text; neither the latitude nor the longitude sent contains a
    comma, and what follows the second comma is dropped. *)
Theorem geo_location_pieces (record : gmap string string)
    (latitude longitude : string) :
  geo_message record
  = inr ("sendLocation", [("latitude", latitude); ("longitude", longitude)]) ->
  exists loc tail,
    record !! "loc" = Some loc
    /\ loc = latitude +:+ "," +:+ longitude +:+ tail
    /\ contains "," latitude = false
    /\ contains "," longitude = false
    /\ (tail = EmptyString \/ exists t, tail = "," +:+ t).
Proof.
  unfold geo_message.
  destruct (record !! "loc") as [loc|]; [| intros [=]].
  destruct (split "," loc) as [|p [|q qs]] eqn:Hs; try (intros [=]; fail).
  intros [= <- <-].
  destruct (split_head _ _ _ _ Hs) as [Hp (t & -> & Ht)].
  destruct (split_head _ _ _ _ Ht) as [Hq Hrest].
  destruct qs as [|q' qs'].
  - exists (p +:+ String "," t), EmptyString. subst t.
    rewrite append_empty_r. repeat split; auto.
  - destruct Hrest as (t' & -> & _).
    exists (p +:+ String "," (q +:+ String "," t')), (String "," t').
    repeat split; auto. right. now exists t'.
Qed.

Lemma geo_location_pieces_witness :
  exists loc tail,
    ({["loc" := "1,2,3"]} : gmap string string) !! "loc" = Some loc
    /\ loc = "1" +:+ "," +:+ "2" +:+ tail
    /\ contains "," "1" = false
    /\ contains "," "2" = false
    /\ (tail = EmptyString \/ exists t, tail = "," +:+ t).
Proof.
  apply (geo_location_pieces {["loc" := "1,2,3"]} "1" "2").
  vm_compute; reflexivity.
Defined.

(** ** The forms a run of /ip and /geo can take *)

Lemma track_message_cases (self : bot) (message : response) (name : string) :
  (track_message self message name = Run [] (inl AttributeError)
   /\ dicts_on_path message = false)
  \/ track_message self message name = Run [] (inr tt)
  \/ (exists u, response_uid message = inr u
                /\ track_message self message name = Run [Track u name] (inr tt)).
Proof.
  pose proof (track_message_events self message name) as Hev.
  pose proof (track_message_outcome self message name) as Hout.
  destruct (track_message self message name) as [tr out].
  cbn [events outcome] in Hev, Hout. subst tr out.
  destruct (response_uid message) as [e|u] eqn:Hu.
  - left. destruct (response_uid_off_path message e Hu) as [-> Hp].
    now split.
  - right.
    destruct (option_truthy str_truthy (botan_token self) && json_truthy u);
      [right; now exists u | now left].
Qed.

Lemma geo_message_error (message : gmap string string) (e : exn) :
  geo_message message = inl e -> e = IndexError.
Proof.
  unfold geo_message.
  destruct (message !! "loc") as [loc|]; [| intros [=]].
  destruct (split "," loc) as [|p [|q qs]] eqn:Hs.
  - now apply split_nonempty in Hs.
  - intros [= <-]. reflexivity.
  - intros [=].
Qed.

Lemma format_filled_error (data : gmap string string) (e : exn) :
  format BASE_TEMPLATE (fill_required data) = inl e -> e = KeyError "ip".
Proof.
  destruct (data !! "ip") as [a|] eqn:Hip.
  - rewrite (format_filled data a Hip). intros [=].
  - rewrite format_base_template_no_ip by now rewrite fill_required_lookup_ip.
    intros [= <-]. reflexivity.
Qed.

Section RunForms.
Context `{IPAddress}.
Variables (self : bot) (m : rmatch).

Lemma ip_base_method_cases (a : address) :
  (exists e, ip_base_method self m a
             = Run [HttpGet (IPINFO +:+ address_str a +:+ "/json")] (inl e))
  \/ (exists method msg,
         ip_base_method self m a
         = Run (HttpGet (IPINFO +:+ address_str a +:+ "/json")
                  :: SendToChat method msg
                  :: events (track_message self (send_result self method msg) "Ip"))
               (outcome (track_message self (send_result self method msg) "Ip"))).
Proof.
  destruct (http_json self (IPINFO +:+ address_str a +:+ "/json"))
    as [e|data] eqn:Hq.
  - left. exists e. now apply ip_base_method_lookup_fails.
  - destruct (format BASE_TEMPLATE (fill_required data)) as [e|text] eqn:Hf.
    + left. exists e. exact (ip_base_method_raises self m a data e Hq Hf).
    + right. exists "sendMessage", [("text", text); ("parse_mode", "Markdown")].
      exact (ip_base_method_sends self m a data text Hq Hf).
Qed.

Lemma ip_geo_method_cases (a : address) :
  (exists e, ip_geo_method self m a
             = Run [HttpGet (IPINFO +:+ address_str a +:+ "/geo")] (inl e))
  \/ (exists method msg,
         ip_geo_method self m a
         = Run (HttpGet (IPINFO +:+ address_str a +:+ "/geo")
                  :: SendToChat method msg
                  :: events (track_message self (send_result self method msg)
                               "Ip_Geo"))
               (outcome (track_message self (send_result self method msg)
                           "Ip_Geo"))).
Proof.
  destruct (http_json self (IPINFO +:+ address_str a +:+ "/geo"))
    as [e|message] eqn:Hq.
  - left. exists e. now apply ip_geo_method_lookup_fails.
  - destruct (geo_message message) as [e|[method msg]] eqn:Hg.
    + left. exists e. exact (ip_geo_method_raises self m a message e Hq Hg).
    + right. exists method, msg.
      exact (ip_geo_method_sends self m a message method msg Hq Hg).
Qed.

Lemma track_message_not_ValueError (self0 : bot) (message : response)
    (name : string) :
  outcome (track_message self0 message name) <> inl ValueError.
Proof.
  rewrite track_message_outcome.
  destruct (response_uid message) as [e|u] eqn:Hu; [| discriminate].
  destruct (response_uid_off_path message e Hu) as [-> _]. discriminate.
Qed.

(** The forms of a run under the guard, for a method that either raises
    after its lookup or sends once and then tracks. *)
Lemma check_ip_cases (method_to_decorate : bot -> rmatch -> address -> M unit)
    (suffix name : string) :
  (forall a,
      (exists e, method_to_decorate self m a
                 = Run [HttpGet (IPINFO +:+ address_str a +:+ suffix)] (inl e))
      \/ (exists method msg,
             method_to_decorate self m a
             = Run (HttpGet (IPINFO +:+ address_str a +:+ suffix)
                      :: SendToChat method msg
                      :: events (track_message self (send_result self method msg)
                                   name))
                   (outcome (track_message self (send_result self method msg)
                               name)))) ->
  (exists ev, is_send ev = true
              /\ check_ip method_to_decorate self m = Run [ev] (inr tt))
  \/ (exists url e, is_ValueError e = false
                    /\ check_ip method_to_decorate self m
                       = Run [HttpGet url] (inl e))
  \/ (exists url text,
         check_ip method_to_decorate self m
         = Run [HttpGet url; Reply text] (inr tt))
  \/ (exists url method msg,
         check_ip method_to_decorate self m
         = track_then (HttpGet url) (SendToChat method msg)
             (track_message self (send_result self method msg) name)).
Proof.
  intros Hmethod. rewrite check_ip_validate.
  destruct (validate (group m 2)) as [|raw|raw a].
  - left. eexists. split; [| reflexivity]. reflexivity.
  - left. eexists. split; [| reflexivity]. reflexivity.
  - right. destruct (Hmethod a) as [[e ->] | (method & msg & ->)].
    + destruct (is_ValueError e) eqn:He.
      * right. left. destruct e; try discriminate He.
        exists (IPINFO +:+ address_str a +:+ suffix), (invalid_address_text raw).
        reflexivity.
      * left. eexists _, e. split; [exact He |]. now apply try_except_other.
    + right. right. exists (IPINFO +:+ address_str a +:+ suffix), method, msg.
      apply try_except_no_ValueError. cbn [outcome].
      apply track_message_not_ValueError.
Qed.

Lemma command_cases (run : M unit) :
  run = ip_base self m \/ run = ip_geo self m ->
  (exists ev, is_send ev = true /\ run = Run [ev] (inr tt))
  \/ (exists url e, is_ValueError e = false /\ run = Run [HttpGet url] (inl e))
  \/ (exists url text, run = Run [HttpGet url; Reply text] (inr tt))
  \/ (exists url method msg name,
         run = track_then (HttpGet url) (SendToChat method msg)
                 (track_message self (send_result self method msg) name)).
Proof.
  intros [-> | ->].
  - destruct (check_ip_cases ip_base_method "/json" "Ip" ip_base_method_cases)
      as [? | [? | [? | (url & method & msg & ?)]]]; eauto 10.
  - destruct (check_ip_cases ip_geo_method "/geo" "Ip_Geo" ip_geo_method_cases)
      as [? | [? | [? | (url & method & msg & ?)]]]; eauto 10.
Qed.

End RunForms.

(** X8: a run of /ip or of /geo makes at most one lookup, sends at most
    one message to the user and makes at most one tracking call; when it
    returns the user has received exactly one message, and when the user
    has received none it has raised; a run that raises after its message
    raises [AttributeError], from the tracking, on an answer to the send
    that lacks a dict where the tracking looks for one; so with answers of
    the expected shape the run returns exactly when one message was sent
    and raises exactly when none was. *)
Theorem command_run_counts `{IPAddress} (self : bot) (m : rmatch) (run : M unit) :
  run = ip_base self m \/ run = ip_geo self m ->
  (length (List.filter is_lookup (events run)) <= 1)%nat
  /\ (length (List.filter is_send (events run)) <= 1)%nat
  /\ (length (List.filter is_track (events run)) <= 1)%nat
  /\ (returned run = true -> length (List.filter is_send (events run)) = 1%nat)
  /\ (List.filter is_send (events run) = [] -> returned run = false)
  /\ (returned run = false ->
      List.filter is_send (events run) = []
      \/ (outcome run = inl AttributeError
          /\ exists method msg,
               List.filter is_send (events run) = [SendToChat method msg]
               /\ dicts_on_path (send_result self method msg) = false))
  /\ ((forall method msg, dicts_on_path (send_result self method msg) = true) ->
      (returned run = true <-> length (List.filter is_send (events run)) = 1%nat)
      /\ (returned run = false <-> List.filter is_send (events run) = [])).
Proof.
  intros Hrun.
  destruct (command_cases self m run Hrun)
    as [(ev & Hev & ->) | [(url & e & He & ->) | [(url & text & ->)
        | (url & method & msg & name & ->)]]].
  - destruct ev; try discriminate Hev; cbn; repeat split; auto; discriminate.
  - cbn. repeat split; auto; discriminate.
  - cbn. repeat split; auto; discriminate.
  - unfold track_then.
    destruct (track_message_cases self (send_result self method msg) name)
      as [[-> Hp] | [-> | (u & _ & ->)]]; cbn.
    + split; [auto |]. split; [auto |]. split; [auto |].
      split; [discriminate |]. split; [discriminate |].
      split.
      * intros _. right. split; [reflexivity |]. now exists method, msg.
      * intros Hall. specialize (Hall method msg). congruence.
    + repeat split; auto; discriminate.
    + repeat split; auto; discriminate.
Qed.

Lemma command_run_counts_witness :
  (length (List.filter is_lookup
             (events (@ip_base DottedQuad.lib
                        (sample_bot (Some "token") (inr {["ip" := "8.8.8.8"]})
                           (Some 42%Z))
                        (matched_arg (Some "8.8.8.8"))))) <= 1)%nat.
Proof.
  refine (proj1 (@command_run_counts DottedQuad.lib
            (sample_bot (Some "token") (inr {["ip" := "8.8.8.8"]}) (Some 42))
            (matched_arg (Some "8.8.8.8")) _ (or_introl eq_refl))).
Defined.

Ltac order_goal :=
  let Hk := fresh "Hk" in
  split; [| split]; intros Hk; cbn in Hk; try congruence; cbn; auto.

(** X9: in a run of /ip or of /geo the lookup, when there is one, is the
    first event; nothing is looked up or sent after a message to the user;
    and a tracking call, when there is one, is the last event, comes right
    after a send on the chat and carries the chat id found in the answer
    to that send. *)
Theorem command_run_order `{IPAddress} (self : bot) (m : rmatch) (run : M unit)
    (pre post : list event) (ev : event) :
  run = ip_base self m \/ run = ip_geo self m ->
  events run = (pre ++ ev :: post)%list ->
  (is_lookup ev = true -> pre = [])
  /\ (is_send ev = true ->
      List.filter is_send post = [] /\ List.filter is_lookup post = [])
  /\ (is_track ev = true ->
      post = []
      /\ exists url method msg name u,
           pre = [HttpGet url; SendToChat method msg]
           /\ ev = Track u name
           /\ response_uid (send_result self method msg) = inr u).
Proof.
  intros Hrun Hev.
  destruct (command_cases self m run Hrun)
    as [(ev0 & Hs & ->) | [(url & e & He & ->) | [(url & text & ->)
        | (url & method & msg & name & ->)]]];
    cbn [events track_then] in Hev.
  - destruct pre as [|? [|? ?]]; try discriminate Hev.
    injection Hev as <- <-.
    destruct ev0; try discriminate Hs; order_goal.
  - destruct pre as [|? [|? ?]]; try discriminate Hev.
    injection Hev as <- <-. order_goal.
  - destruct pre as [|? [|? [|? ?]]]; try discriminate Hev;
      injection Hev as <-; subst; order_goal.
  - destruct (track_message_cases self (send_result self method msg) name)
      as [[Htr _] | [Htr | (u & Hu & Htr)]]; rewrite Htr in Hev;
      cbn [events] in Hev.
    + destruct pre as [|? [|? [|? ?]]]; try discriminate Hev;
        injection Hev as <-; subst; order_goal.
    + destruct pre as [|? [|? [|? ?]]]; try discriminate Hev;
        injection Hev as <-; subst; order_goal.
    + destruct pre as [|? [|? [|? [|? ?]]]]; try discriminate Hev;
        injection Hev as <-; subst; order_goal.
      split; [reflexivity |].
      exists url, method, msg, name, u. repeat split; auto.
Qed.

Lemma command_run_order_witness :
  ([] : list event) = []
  /\ exists url method msg name u,
       [HttpGet "https://ipinfo.io/8.8.8.8/json";
        SendToChat "sendMessage"
          [("text", rendered_base "8.8.8.8" EmptyString EmptyString EmptyString
                      EmptyString EmptyString);
           ("parse_mode", "Markdown")]]
       = [HttpGet url; SendToChat method msg]
       /\ Track (JNumber 42) "Ip" = Track u name
       /\ response_uid
            (send_result
               (sample_bot (Some "token") (inr {["ip" := "8.8.8.8"]}) (Some 42))
               method msg) = inr u.
Proof.
  exact (proj2 (proj2
           (@command_run_order DottedQuad.lib
              (sample_bot (Some "token") (inr {["ip" := "8.8.8.8"]}) (Some 42))
              (matched_arg (Some "8.8.8.8")) _
              [HttpGet "https://ipinfo.io/8.8.8.8/json";
               SendToChat "sendMessage"
                 [("text", rendered_base "8.8.8.8" EmptyString EmptyString
                             EmptyString EmptyString EmptyString);
                  ("parse_mode", "Markdown")]]
              [] (Track (JNumber 42) "Ip") (or_introl eq_refl) eq_refl)) eq_refl).
Defined.

(** ** The argument captured by the patterns of the table *)

Lemma append_assoc (a b c : string) : (a +:+ b) +:+ c = a +:+ (b +:+ c).
Proof.
  induction a as [|x a IH]; [reflexivity |].
  now rewrite !append_cons, IH.
Qed.

Lemma length_append (a b : string) :
  String.length (a +:+ b) = (String.length a + String.length b)%nat.
Proof.
  induction a as [|x a IH]; [reflexivity |].
  rewrite append_cons. simpl. now rewrite IH.
Qed.

Lemma substring_prefix (a b : string) :
  String.substring 0 (String.length a) (a +:+ b) = a.
Proof.
  induction a as [|x a IH].
  - destruct b; reflexivity.
  - rewrite append_cons. simpl. now rewrite IH.
Qed.

Lemma consumed_append (a rest : string) : consumed (a +:+ rest) rest = a.
Proof.
  unfold consumed. rewrite length_append.
  replace (String.length a + String.length rest - String.length rest)%nat
    with (String.length a) by lia.
  apply substring_prefix.
Qed.

Lemma strip_prefix_append (p s : string) : strip_prefix p (p +:+ s) = Some s.
Proof.
  induction p as [|x p IH]; [reflexivity |].
  rewrite append_cons. simpl. now rewrite Ascii.eqb_refl.
Qed.

Lemma strip_prefix_inv (p s s' : string) :
  strip_prefix p s = Some s' -> s = p +:+ s'.
Proof.
  revert s. induction p as [|x p IH]; intros s; simpl.
  - now intros [= ->].
  - destruct s as [|y s]; [discriminate |].
    destruct (Ascii.eqb x y) eqn:Hxy; [| discriminate].
    apply Ascii.eqb_eq in Hxy as ->. intros Hs.
    now rewrite append_cons, <- (IH s Hs).
Qed.

Lemma dot_plus_stops {T} (rest : string) (k : string -> option T) :
  rest = EmptyString \/ (exists t, rest = String newline_char t) ->
  dot_plus rest k = None.
Proof. intros [-> | [t ->]]; reflexivity. Qed.

Lemma dot_plus_greedy {T} (a rest : string) (k : string -> option T) (r : T) :
  a <> EmptyString -> contains newline_char a = false ->
  rest = EmptyString \/ (exists t, rest = String newline_char t) ->
  k rest = Some r ->
  dot_plus (a +:+ rest) k = Some r.
Proof.
  intros Hne Hnl Hrest Hk.
  induction a as [|c a IH]; [congruence |].
  simpl in Hnl. apply orb_false_iff in Hnl as [Hc Ha].
  rewrite append_cons. simpl. rewrite Hc.
  destruct a as [|c' a'].
  - rewrite append_nil_l, (dot_plus_stops rest k Hrest). exact Hk.
  - rewrite IH; [reflexivity | discriminate | exact Ha].
Qed.

Lemma dot_plus_inv {T} (s : string) (k : string -> option T) (r : T) :
  dot_plus s k = Some r ->
  exists a rest,
    s = a +:+ rest /\ a <> EmptyString
    /\ contains newline_char a = false /\ k rest = Some r.
Proof.
  induction s as [|c s IH]; simpl; [discriminate |].
  destruct (Ascii.eqb c newline_char) eqn:Hc; [discriminate |].
  destruct (dot_plus s k) as [r'|] eqn:Hd.
  - intros [= ->]. destruct (IH eq_refl) as (a & rest & -> & _ & Ha & Hk).
    exists (String c a), rest. repeat split; try easy.
    simpl. now rewrite Hc, Ha.
  - intros Hk. exists (String c EmptyString), s. repeat split; try easy.
    simpl. now rewrite Hc.
Qed.

(** The match of [(token (.+)|token)] at the start of a text, unfolded. *)
Lemma re_match_command_arg (token text : string) :
  re_match (command_arg token) text
  = match match strip_prefix (token +:+ " ") text with
          | Some s' =>
              dot_plus s'
                (fun s'' =>
                   Some (<[0%nat := consumed text s'']>
                           (<[1%nat := consumed text s'']>
                              (<[2%nat := consumed s' s'']> (∅ : rmatch)))))
          | None => None
          end with
    | Some mt => Some mt
    | None =>
        match strip_prefix token text with
        | Some s' =>
            Some (<[0%nat := consumed text s']>
                    (<[1%nat := consumed text s']> (∅ : rmatch)))
        | None => None
        end
    end.
Proof.
  unfold re_match, command_arg. cbn [rx].
  destruct (strip_prefix (token +:+ " ") text); reflexivity.
Qed.

Lemma re_match_command_arg_capture (token arg rest : string) :
  arg <> EmptyString -> contains newline_char arg = false ->
  rest = EmptyString \/ (exists t, rest = String newline_char t) ->
  re_match (command_arg token) (token +:+ " " +:+ arg +:+ rest)
  = Some (<[0%nat := token +:+ " " +:+ arg]>
            (<[1%nat := token +:+ " " +:+ arg]>
               (<[2%nat := arg]> (∅ : rmatch)))).
Proof.
  intros Hne Hnl Hrest. rewrite re_match_command_arg.
  replace (token +:+ " " +:+ arg +:+ rest)
    with ((token +:+ " ") +:+ (arg +:+ rest)) at 1 by apply append_assoc.
  rewrite strip_prefix_append.
  erewrite dot_plus_greedy; [| exact Hne | exact Hnl | exact Hrest | reflexivity].
  rewrite consumed_append.
  replace (token +:+ " " +:+ arg +:+ rest)
    with ((token +:+ " " +:+ arg) +:+ rest)
    by now rewrite !append_assoc.
  now rewrite consumed_append.
Qed.

Lemma re_match_command_arg_inv (token text : string) (mt : rmatch) :
  re_match (command_arg token) text = Some mt ->
  (group mt 2 = None /\ exists rest, text = token +:+ rest)
  \/ (exists arg rest,
         group mt 2 = Some arg /\ arg <> EmptyString
         /\ contains newline_char arg = false
         /\ text = token +:+ " " +:+ arg +:+ rest).
Proof.
  rewrite re_match_command_arg.
  destruct (strip_prefix (token +:+ " ") text) as [s'|] eqn:Hp.
  - destruct (dot_plus s' _) as [mt'|] eqn:Hd.
    + intros [= ->]. right.
      apply dot_plus_inv in Hd as (a & rest & -> & Hne & Hnl & [= <-]).
      exists a, rest. apply strip_prefix_inv in Hp.
      rewrite consumed_append. unfold group.
      rewrite !lookup_insert_ne, lookup_insert_eq by discriminate.
      rewrite Hp, append_assoc. repeat split; auto.
    + destruct (strip_prefix token text) as [s''|] eqn:Hp'; [| discriminate].
      intros [= <-]. left. unfold group.
      rewrite !lookup_insert_ne, lookup_empty by discriminate.
      split; [reflexivity |]. exists s''. now apply strip_prefix_inv.
  - destruct (strip_prefix token text) as [s''|] eqn:Hp'; [| discriminate].
    intros [= <-]. left. unfold group.
    rewrite !lookup_insert_ne, lookup_empty by discriminate.
    split; [reflexivity |]. exists s''. now apply strip_prefix_inv.
Qed.

Lemma re_match_lit_group (p text : string) (mt : rmatch) :
  re_match (Lit p) text = Some mt -> group mt 2 = None.
Proof.
  unfold re_match. cbn [rx].
  destruct (strip_prefix p text) as [s'|]; [| discriminate].
  intros [= <-]. unfold group.
  now rewrite lookup_insert_ne, lookup_empty by discriminate.
Qed.

(** X10: a text that starts with "/ip " (or "/geo ") followed by a
    non-empty argument that runs to the end of the text or of its first
    line is routed to the /ip (or /geo) handler, and the argument the
    handler receives is that whole remainder of the line, spaces
    included. *)
Theorem route_captures_rest_of_line (arg rest : string) :
  arg <> EmptyString -> contains newline_char arg = false ->
  rest = EmptyString \/ (exists t, rest = String newline_char t) ->
  route _commands ("/ip " +:+ arg +:+ rest)
  = Some (h_ip_base,
          <[0%nat := "/ip " +:+ arg]>
            (<[1%nat := "/ip " +:+ arg]> (<[2%nat := arg]> (∅ : rmatch))))
  /\ route _commands ("/geo " +:+ arg +:+ rest)
     = Some (h_ip_geo,
             <[0%nat := "/geo " +:+ arg]>
               (<[1%nat := "/geo " +:+ arg]> (<[2%nat := arg]> (∅ : rmatch)))).
Proof.
  intros Hne Hnl Hrest.
  pose proof (re_match_command_arg_capture "/ip" arg rest Hne Hnl Hrest) as Hip.
  pose proof (re_match_command_arg_capture "/geo" arg rest Hne Hnl Hrest) as Hgeo.
  change ("/ip" +:+ " " +:+ arg +:+ rest) with ("/ip " +:+ arg +:+ rest) in Hip.
  change ("/ip" +:+ " " +:+ arg) with ("/ip " +:+ arg) in Hip.
  change ("/geo" +:+ " " +:+ arg +:+ rest) with ("/geo " +:+ arg +:+ rest) in Hgeo.
  change ("/geo" +:+ " " +:+ arg) with ("/geo " +:+ arg) in Hgeo.
  split.
  - unfold route, _commands.
    change (re_match (Lit "/start") ("/ip " +:+ arg +:+ rest)) with (@None rmatch).
    change (re_match (Lit "/help") ("/ip " +:+ arg +:+ rest)) with (@None rmatch).
    change (re_match (Lit "/ping") ("/ip " +:+ arg +:+ rest)) with (@None rmatch).
    now rewrite Hip.
  - unfold route, _commands.
    change (re_match (Lit "/start") ("/geo " +:+ arg +:+ rest)) with (@None rmatch).
    change (re_match (Lit "/help") ("/geo " +:+ arg +:+ rest)) with (@None rmatch).
    change (re_match (Lit "/ping") ("/geo " +:+ arg +:+ rest)) with (@None rmatch).
    change (re_match (command_arg "/ip") ("/geo " +:+ arg +:+ rest))
      with (@None rmatch).
    now rewrite Hgeo.
Qed.

Lemma route_captures_rest_of_line_witness :
  route _commands ("/ip " +:+ "8.8.8.8 " +:+ String newline_char "second line")
  = Some (h_ip_base,
          <[0%nat := "/ip " +:+ "8.8.8.8 "]>
            (<[1%nat := "/ip " +:+ "8.8.8.8 "]>
               (<[2%nat := "8.8.8.8 "]> (∅ : rmatch)))).
Proof.
  refine (proj1 (route_captures_rest_of_line "8.8.8.8 "
                   (String newline_char "second line") _ _ _)).
  - discriminate.
  - reflexivity.
  - right. now exists "second line".
Defined.

Lemma try_except_in {A} (body handler : M A) (ev : event) :
  In ev (events (try_except_ValueError body handler)) ->
  In ev (events body) \/ In ev (events handler).
Proof.
  unfold try_except_ValueError.
  destruct (outcome body) as [e|x]; [| now left].
  destruct (is_ValueError e); [| now left].
  cbn [events]. apply in_app_or.
Qed.

Lemma rendered_base_not_missing_text (ip hostname org country city loc : string) :
  rendered_base ip hostname org country city loc <> missing_argument_text.
Proof. intros Heq. cbv in Heq. discriminate Heq. Qed.

Section MissingArgumentSend.
Context `{IPAddress}.
Variables (self : bot) (m : rmatch) (a : address).

Lemma ip_base_method_not_missing_send :
  ~ In (SendToChat "sendMessage"
          [("text", missing_argument_text); ("parse_mode", "Markdown")])
       (events (ip_base_method self m a)).
Proof.
  destruct (http_json self (IPINFO +:+ address_str a +:+ "/json"))
    as [e|data] eqn:Hq.
  { rewrite (ip_base_method_lookup_fails self m a e Hq).
    intros [Hin | []]. discriminate Hin. }
  destruct (data !! "ip") as [ip|] eqn:Hip.
  - rewrite (ip_base_method_sends self m a data _ Hq (format_filled data ip Hip)).
    cbn [events]. intros [Hin | [Hin | Hin]].
    + discriminate Hin.
    + apply (rendered_base_not_missing_text ip
               (default EmptyString (data !! "hostname"))
               (default EmptyString (data !! "org"))
               (default EmptyString (data !! "country"))
               (default EmptyString (data !! "city"))
               (default EmptyString (data !! "loc"))).
      congruence.
    + apply track_message_label in Hin as [u Hu]. discriminate Hu.
  - rewrite (ip_base_method_raises self m a data (KeyError "ip") Hq).
    + intros [Hin | []]. discriminate Hin.
    + apply format_base_template_no_ip. now rewrite fill_required_lookup_ip.
Qed.

Lemma ip_geo_method_not_missing_send :
  ~ In (SendToChat "sendMessage"
          [("text", missing_argument_text); ("parse_mode", "Markdown")])
       (events (ip_geo_method self m a)).
Proof.
  destruct (http_json self (IPINFO +:+ address_str a +:+ "/geo"))
    as [e|message] eqn:Hq.
  { rewrite (ip_geo_method_lookup_fails self m a e Hq).
    intros [Hin | []]. discriminate Hin. }
  destruct (geo_message message) as [e|[method msg]] eqn:Hg.
  - rewrite (ip_geo_method_raises self m a message e Hq Hg).
    intros [Hin | []]. discriminate Hin.
  - rewrite (ip_geo_method_sends self m a message method msg Hq Hg).
    cbn [events]. intros [Hin | [Hin | Hin]].
    + discriminate Hin.
    + injection Hin as -> ->. unfold geo_message in Hg.
      destruct (message !! "loc") as [loc|]; [| discriminate Hg].
      destruct (split "," loc) as [|p [|q qs]]; discriminate Hg.
    + apply track_message_label in Hin as [u Hu]. discriminate Hu.
Qed.

End MissingArgumentSend.

(** X11: for every match the table produces, the argument group is never
    the empty string: it is either absent or a non-empty text without a
    newline, and it is present only for the /ip and /geo handlers.  For
    these two handlers the missing-argument message is the whole run when
    the group is absent, and is not sent at all when the group is
    present. *)
Theorem routed_argument_never_empty `{IPAddress}
    (self : bot) (text : string) (h : handler) (mt : rmatch) :
  route _commands text = Some (h, mt) ->
  group mt 2 <> Some EmptyString
  /\ (forall arg, group mt 2 = Some arg ->
                  arg <> EmptyString
                  /\ contains newline_char arg = false
                  /\ (h = h_ip_base \/ h = h_ip_geo))
  /\ (h = h_ip_base \/ h = h_ip_geo ->
      (group mt 2 = None ->
       call h self mt
       = Run [SendToChat "sendMessage"
                [("text", missing_argument_text); ("parse_mode", "Markdown")]]
             (inr tt))
      /\ (forall arg, group mt 2 = Some arg ->
            ~ In (SendToChat "sendMessage"
                    [("text", missing_argument_text); ("parse_mode", "Markdown")])
                 (events (call h self mt)))).
Proof.
  intros Hroute.
  assert (Hshape : forall arg, group mt 2 = Some arg ->
                               arg <> EmptyString
                               /\ contains newline_char arg = false
                               /\ (h = h_ip_base \/ h = h_ip_geo)).
  { revert Hroute. unfold route, _commands.
    destruct (re_match (Lit "/start") text) eqn:E1;
      [intros [= <- ->] arg Ha;
       rewrite (re_match_lit_group _ _ _ E1) in Ha; discriminate Ha |].
    destruct (re_match (Lit "/help") text) eqn:E2;
      [intros [= <- ->] arg Ha;
       rewrite (re_match_lit_group _ _ _ E2) in Ha; discriminate Ha |].
    destruct (re_match (Lit "/ping") text) eqn:E3;
      [intros [= <- ->] arg Ha;
       rewrite (re_match_lit_group _ _ _ E3) in Ha; discriminate Ha |].
    destruct (re_match (command_arg "/ip") text) eqn:E4.
    { intros [= <- ->] arg Ha.
      destruct (re_match_command_arg_inv _ _ _ E4)
        as [[Hn _] | (arg' & rest & Hs & Hne & Hnl & _)]; [congruence |].
      rewrite Hs in Ha. injection Ha as <-. auto. }
    destruct (re_match (command_arg "/geo") text) eqn:E5; [| discriminate].
    intros [= <- ->] arg Ha.
    destruct (re_match_command_arg_inv _ _ _ E5)
      as [[Hn _] | (arg' & rest & Hs & Hne & Hnl & _)]; [congruence |].
    rewrite Hs in Ha. injection Ha as <-. auto. }
  split.
  { intros Hempty. now destruct (Hshape _ Hempty) as [Hne _]. }
  split; [exact Hshape |].
  intros Hh.
  assert (Hcall : exists f,
             call h self mt = check_ip f self mt
             /\ forall a, ~ In (SendToChat "sendMessage"
                                  [("text", missing_argument_text);
                                   ("parse_mode", "Markdown")])
                               (events (f self mt a))).
  { destruct Hh as [-> | ->].
    - exists ip_base_method. split; [reflexivity |].
      intros a. apply ip_base_method_not_missing_send.
    - exists ip_geo_method. split; [reflexivity |].
      intros a. apply ip_geo_method_not_missing_send. }
  destruct Hcall as (f & -> & Hf).
  split.
  - intros Hnone. apply check_ip_missing. now left.
  - intros arg Ha Hin.
    destruct (Hshape arg Ha) as (Hne & _ & _).
    rewrite check_ip_validate, Ha in Hin. unfold validate in Hin.
    destruct arg as [|c arg]; [congruence |].
    destruct (ip_address (String c arg)) as [a|].
    + apply try_except_in in Hin as [Hin | [Hin | []]].
      * exact (Hf a Hin).
      * discriminate Hin.
    + destruct Hin as [Hin | []]. discriminate Hin.
Qed.

Lemma routed_argument_never_empty_witness :
  @call DottedQuad.lib h_ip_geo (sample_bot None (inr ∅) None)
    (<[0%nat := "/geo"]> (<[1%nat := "/geo"]> (∅ : rmatch)))
  = Run [SendToChat "sendMessage"
           [("text", missing_argument_text); ("parse_mode", "Markdown")]]
        (inr tt).
Proof.
  refine (proj1 (proj2 (proj2
            (@routed_argument_never_empty DottedQuad.lib
               (sample_bot None (inr ∅) None) "/geo" h_ip_geo
               (<[0%nat := "/geo"]> (<[1%nat := "/geo"]> (∅ : rmatch))) _))
            (or_intror eq_refl)) _).
  - vm_compute; reflexivity.
  - vm_compute; reflexivity.
Defined.

(** ** The configuration *)

Lemma override_from_environ_lookup (environ : gmap string string)
    (name key : string) (CONFIG : gmap string json_value) (k : string) :
  override_from_environ environ name key CONFIG !! k
  = if decide (k = key) then
      match environ !! name with
      | Some value => if str_truthy value then Some (JString value) else CONFIG !! k
      | None => CONFIG !! k
      end
    else CONFIG !! k.
Proof.
  unfold override_from_environ.
  destruct (decide (k = key)) as [-> | Hne].
  - destruct (environ !! name) as [value|]; [| reflexivity].
    destruct (str_truthy value); [apply lookup_insert_eq | reflexivity].
  - destruct (environ !! name) as [value|]; [| reflexivity].
    destruct (str_truthy value); [| reflexivity].
    apply lookup_insert_ne. congruence.
Qed.

(** X12: a token set to a non-empty value in the environment replaces the
    one of [config.json] as a string; a variable that is unset or empty
    leaves the value of the file (or its absence) as it is; and the two
    tokens do not interfere with one another. *)
Theorem environ_token_overrides_config (file : gmap string json_value)
    (environ : gmap string string) :
  (load_config file environ).1 !! "api_token"
  = match environ !! "IPINFOIO_TELEGRAM_API_TOKEN" with
    | Some value =>
        if str_truthy value then Some (JString value) else file !! "api_token"
    | None => file !! "api_token"
    end
  /\ (load_config file environ).1 !! "botan_token"
     = match environ !! "BOTAN_TOKEN" with
       | Some value =>
           if str_truthy value then Some (JString value)
           else file !! "botan_token"
       | None => file !! "botan_token"
       end.
Proof.
  unfold load_config. cbn [fst]. split.
  - rewrite lookup_delete_ne by discriminate.
    rewrite !override_from_environ_lookup.
    rewrite decide_False by discriminate. now rewrite decide_True.
  - rewrite lookup_delete_ne by discriminate.
    rewrite !override_from_environ_lookup.
    rewrite decide_True by reflexivity.
    rewrite decide_False by discriminate. reflexivity.
Qed.

(** X13: the [debug] entry never reaches the constructor of the bot: it
    is removed from [CONFIG], and [DEBUG] is its value in the file, or
    [False] when the file has none, whatever the environment holds; every
    entry other than [debug] and the two tokens is passed on unchanged;
    and without a [debug] entry the logging level is INFO. *)
Theorem debug_popped_from_config (file : gmap string json_value)
    (environ : gmap string string) :
  (load_config file environ).1 !! "debug" = None
  /\ (load_config file environ).2 = default (JBool false) (file !! "debug")
  /\ (forall k, k <> "debug" -> k <> "api_token" -> k <> "botan_token" ->
                (load_config file environ).1 !! k = file !! k)
  /\ (file !! "debug" = None ->
      main_logging_level (load_config file environ).2 = level_INFO).
Proof.
  assert (Hdebug : (load_config file environ).2
                   = default (JBool false) (file !! "debug")).
  { unfold load_config. cbn [snd].
    rewrite !override_from_environ_lookup.
    now rewrite !decide_False by discriminate. }
  split; [unfold load_config; cbn [fst]; apply lookup_delete_eq |].
  split; [exact Hdebug |].
  split.
  - intros k Hd Ha Hb. unfold load_config. cbn [fst].
    rewrite lookup_delete_ne by congruence.
    rewrite !override_from_environ_lookup.
    now rewrite !decide_False by assumption.
  - intros Hnone. now rewrite Hdebug, Hnone.
Qed.

Lemma debug_popped_from_config_witness :
  main_logging_level
    (load_config {["api_token" := JString "abc"]}
       {["BOTAN_TOKEN" := "xyz"]}).2 = level_INFO.
Proof.
  refine (proj2 (proj2 (proj2
            (debug_popped_from_config {["api_token" := JString "abc"]}
               {["BOTAN_TOKEN" := "xyz"]}))) _).
  vm_compute; reflexivity.
Defined.
